(** * migrate_client.py: namespace rewriting and file migration

    A shallow embedding of [src/migrate_client.py].  The script copies a
    fixed list of files from one tree to another and rewrites namespace
    identifiers with [re.sub] on the way.

    - Text is a list of Unicode code points ([list N]); the ASCII literals
      of the script are converted with [cp].
    - [re.sub] is modelled for the fragment of regular expressions the
      script uses: ordinary characters and backslash-escaped punctuation.
      Anything outside that fragment is rejected by [compile].
    - The file system is a finite map from paths to nodes, with an oracle
      for the failures the operating system may report.  A file holds
      the characters stored in it; reading and writing in text mode
      translate line ends on the way. *)

From Stdlib Require Import String Ascii List NArith Lia Bool.
From stdpp Require Import base option list gmap strings pretty.

Local Open Scope string_scope.

(** ** Text *)

Abbreviation text := (list N).

Definition cp (s : string) : text :=
  map N_of_ascii (list_ascii_of_string s).

(** *** Text mode

    Both files are opened without [newline=].  Reading then turns every
    ["\r\n"] and every other ["\r"] into ["\n"] (universal newlines);
    writing turns every ["\n"] into [os.linesep]. *)

Definition LF : N := 10.
Definition CR : N := 13.

Fixpoint read_newlines (s : text) : text :=
  match s with
  | [] => []
  | c :: rest =>
      if (c =? CR)%N then
        LF :: match rest with
              | d :: rest' =>
                  if (d =? LF)%N then read_newlines rest'
                  else read_newlines rest
              | [] => []
              end
      else c :: read_newlines rest
  end.

(** [os.linesep]: ["\n"] on POSIX, ["\r\n"] on Windows. *)
Inductive line_separator :=
  | Posix
  | Windows.

Definition linesep_text (sep : line_separator) : text :=
  match sep with
  | Posix => [LF]
  | Windows => [CR; LF]
  end.

Definition write_newlines (sep : line_separator) (s : text) : text :=
  flat_map (fun c => if (c =? LF)%N then linesep_text sep else [c]) s.

(** *** File names in messages

    [str(e)] of an [OSError] ends with [repr] of the file name: the name
    in quotes, with backslashes doubled and control characters escaped.
    Bytes above 127 belong to printable characters here and stay. *)

Definition single_quote : ascii := ascii_of_nat 39.
Definition double_quote : ascii := ascii_of_nat 34.

Definition hex_digit (n : nat) : ascii :=
  nth n (list_ascii_of_string "0123456789abcdef") "0"%char.

Definition repr_char (quote c : ascii) : string :=
  let n := nat_of_ascii c in
  if Ascii.eqb c "\"%char then "\\"
  else if Ascii.eqb c quote then String "\"%char (String quote "")
  else if (n =? 9)%nat then "\t"
  else if (n =? 10)%nat then "\n"
  else if (n =? 13)%nat then "\r"
  else if (n <? 32)%nat || (n =? 127)%nat then
    "\x" ++ String (hex_digit (n / 16)) (String (hex_digit (n mod 16)) "")
  else String c "".

Fixpoint has_char (c : ascii) (s : string) : bool :=
  match s with
  | EmptyString => false
  | String a rest => Ascii.eqb a c || has_char c rest
  end.

Fixpoint repr_chars (quote : ascii) (s : string) : string :=
  match s with
  | EmptyString => EmptyString
  | String c rest => repr_char quote c ++ repr_chars quote rest
  end.

Definition repr (s : string) : string :=
  let quote :=
    if has_char single_quote s && negb (has_char double_quote s)
    then double_quote else single_quote in
  String quote (repr_chars quote s ++ String quote "").

(** ** The [re] fragment *)

Module Re.

Section Literal.
Context {A : Type} `{EqDecision A}.

(** [starts_with p s]: the literal [p] matches at the beginning of [s]. *)
Fixpoint starts_with (p s : list A) : bool :=
  match p, s with
  | [], _ => true
  | _ :: _, [] => false
  | a :: p', b :: s' => bool_decide (a = b) && starts_with p' s'
  end.

(** The scan of [re.sub] for a non-empty literal: walk the subject from
    the left; at a match emit the replacement and pass over the matched
    characters ([skip] counts the ones still to pass), otherwise copy
    one character. *)
Fixpoint sub_go (p r : list A) (skip : nat) (s : list A) : list A :=
  match s with
  | [] => []
  | c :: t =>
      match skip with
      | S k => sub_go p r k t
      | O =>
          if starts_with p s
          then r ++ sub_go p r (length p - 1) t
          else c :: sub_go p r 0 t
      end
  end.

(** The empty pattern matches (with length 0) before every character
    and at the end of the subject. *)
Definition sub_empty (r s : list A) : list A :=
  r ++ flat_map (fun c => c :: r) s.

Definition sub_literal (p r s : list A) : list A :=
  match p with
  | [] => sub_empty r s
  | _ :: _ => sub_go p r 0 s
  end.
(** *** Occurrences *)

(** [occurs q s]: the literal [q] matches somewhere in [s]. *)
Fixpoint occurs (q s : list A) : bool :=
  starts_with q s
  || match s with
     | [] => false
     | _ :: t => occurs q t
     end.

(** [occurs_in q l s]: [q] matches in [l ++ s] at a position inside
    [l]. *)
Fixpoint occurs_in (q l s : list A) : bool :=
  match l with
  | [] => false
  | _ :: l' => starts_with q (l ++ s) || occurs_in q l' s
  end.

(** One of the two literals is a prefix of the other. *)
Definition compatible (x y : list A) : bool :=
  starts_with x y || starts_with y x.

(** The non-empty suffixes of a list. *)
Fixpoint suffixes (l : list A) : list (list A) :=
  match l with
  | [] => []
  | _ :: t => l :: suffixes t
  end.

(** [m] cannot come right after a beginning of [q] and continue it:
    no proper, non-empty suffix of [q] is compatible with [m]. *)
Definition cannot_continue (q m : list A) : bool :=
  forallb (fun q' => negb (compatible q' m)) (suffixes (tail q)).

(** The proper, non-empty beginnings of [q] whose rest is compatible
    with [m]: the texts right before [m] that make a match of [q] run
    into [m]. *)
Definition continuations (q m : list A) : list (list A) :=
  flat_map (fun k => if compatible (drop k q) m then [take k q] else [])
           (seq 1 (length q - 1)).

(** No occurrence of [q] can begin inside [m], whatever follows. *)
Definition cannot_begin_in (q m : list A) : bool :=
  forallb (fun m' => negb (compatible q m')) (suffixes m).

(** Putting [r] into a text never makes an occurrence of [q] that
    touches [r]. *)
Definition inert (q r : list A) : bool :=
  match q, r with
  | _ :: _, _ :: _ => cannot_continue q r && cannot_begin_in q r
  | _, _ => false
  end.

(** A match of [p] that begins inside [m] ends inside [m]. *)
Definition contains_matches (p m : list A) : bool :=
  forallb (fun m' => starts_with p m' || negb (starts_with m' p))
          (suffixes m).

(** *** What the documentation of [re.sub] promises

    [replaces_all p r s out]: [out] is [s] with the leftmost
    non-overlapping occurrences of [p] replaced by [r].  Either [p] does
    not occur and nothing changes, or [s] is [u ++ p ++ rest] with the
    first occurrence of [p] right after [u], and the scan goes on
    behind it. *)
Inductive replaces_all (p r : list A) : list A -> list A -> Prop :=
  | replaces_none u :
      occurs p u = false ->
      replaces_all p r u u
  | replaces_first u rest out :
      occurs p (u ++ removelast p) = false ->
      replaces_all p r rest out ->
      replaces_all p r (u ++ p ++ rest) (u ++ r ++ out).
End Literal.

(** Characters with a special meaning in a pattern. *)
Definition is_meta (a : ascii) : bool :=
  existsb (Ascii.eqb a)
    (list_ascii_of_string ".^$*+?{}[]\|()").

Definition is_alnum (a : ascii) : bool :=
  let n := N_of_ascii a in
  ((48 <=? n) && (n <=? 57) || (65 <=? n) && (n <=? 90)
   || (97 <=? n) && (n <=? 122) || (n =? 95))%N.

(** [compile pattern]: the literal a pattern of the fragment stands for.
    A backslash followed by a non-alphanumeric ASCII character is that
    character; an unescaped metacharacter, an escaped letter or digit (a
    character class or a back reference) and a trailing backslash are
    outside the fragment. *)
Fixpoint compile (pattern : string) : option text :=
  match pattern with
  | EmptyString => Some []
  | String c rest =>
      if Ascii.eqb c "\"%char then
        match rest with
        | EmptyString => None
        | String d rest' =>
            if is_alnum d then None
            else match compile rest' with
                 | Some l => Some (N_of_ascii d :: l)
                 | None => None
                 end
        end
      else if is_meta c then None
      else match compile rest with
           | Some l => Some (N_of_ascii c :: l)
           | None => None
           end
  end.

(** A replacement template without a backslash is inserted as it is. *)
Definition template (repl : string) : option text :=
  if existsb (Ascii.eqb "\"%char) (list_ascii_of_string repl)
  then None else Some (cp repl).

(** [re.sub(pattern, repl, string)] on the fragment; [None] stands for a
    pattern or template outside it. *)
Definition sub (pattern repl : string) (content : text) : option text :=
  match compile pattern, template repl with
  | Some p, Some r => Some (sub_literal p r content)
  | _, _ => None
  end.

End Re.

(** ** The tables of the script *)

Definition SRC_BASE : string :=
  "c:\Users\kaleb\OneDrive\Desktop\Projects\DatasetEditor\src\HartsysDatasetEditor.Client".
Definition DEST_BASE : string :=
  "c:\Users\kaleb\OneDrive\Desktop\Projects\DatasetEditor\src\ClientApp".

(** File mapping: (source_relative_path, dest_relative_path). *)
Definition FILE_MAPPINGS : list (string * string) :=
  [
    (* Pages - Datasets *)
    ("Pages/MyDatasets.razor.cs", "Features/Datasets/Pages/DatasetLibrary.razor.cs");
    ("Pages/DatasetViewer.razor", "Features/Datasets/Pages/DatasetViewer.razor");
    ("Pages/DatasetViewer.razor.cs", "Features/Datasets/Pages/DatasetViewer.razor.cs");
    ("Pages/CreateDataset.razor", "Features/Datasets/Pages/CreateDataset.razor");
    ("Pages/AITools.razor", "Features/Datasets/Pages/AITools.razor");
    (* Pages - Settings *)
    ("Pages/Settings.razor", "Features/Settings/Pages/Settings.razor");
    (* Components - Dataset *)
    ("Components/Dataset/DatasetInfo.razor", "Features/Datasets/Components/DatasetInfo.razor");
    ("Components/Dataset/DatasetStats.razor", "Features/Datasets/Components/DatasetStats.razor");
    ("Components/Dataset/DatasetUploader.razor", "Features/Datasets/Components/DatasetUploader.razor");
    ("Components/Dataset/DatasetUploader.razor.cs", "Features/Datasets/Components/DatasetUploader.razor.cs");
    ("Components/Dataset/HuggingFaceDatasetOptions.razor", "Features/Datasets/Components/HuggingFaceDatasetOptions.razor");
    (* Components - Viewer *)
    ("Components/Viewer/ImageCard.razor", "Features/Datasets/Components/ImageCard.razor");
    ("Components/Viewer/ImageCard.razor.cs", "Features/Datasets/Components/ImageCard.razor.cs");
    ("Components/Viewer/ImageDetailPanel.razor", "Features/Datasets/Components/ImageDetailPanel.razor");
    ("Components/Viewer/ImageDetailPanel.razor.cs", "Features/Datasets/Components/ImageDetailPanel.razor.cs");
    ("Components/Viewer/ImageGrid.razor", "Features/Datasets/Components/ImageGrid.razor");
    ("Components/Viewer/ImageGrid.razor.cs", "Features/Datasets/Components/ImageGrid.razor.cs");
    ("Components/Viewer/ImageList.razor", "Features/Datasets/Components/ImageList.razor");
    ("Components/Viewer/ImageLightbox.razor", "Features/Datasets/Components/ImageLightbox.razor");
    ("Components/Viewer/ViewerContainer.razor", "Features/Datasets/Components/ViewerContainer.razor");
    ("Components/Viewer/ViewerContainer.razor.cs", "Features/Datasets/Components/ViewerContainer.razor.cs");
    (* Components - Filter *)
    ("Components/Filter/FilterPanel.razor", "Features/Datasets/Components/FilterPanel.razor");
    ("Components/Filter/FilterPanel.razor.cs", "Features/Datasets/Components/FilterPanel.razor.cs");
    ("Components/Filter/DateRangeFilter.razor", "Features/Datasets/Components/DateRangeFilter.razor");
    ("Components/Filter/FilterChips.razor", "Features/Datasets/Components/FilterChips.razor");
    ("Components/Filter/SearchBar.razor", "Features/Datasets/Components/SearchBar.razor");
    (* Components - Dialogs *)
    ("Components/Dialogs/AddTagDialog.razor", "Features/Datasets/Components/AddTagDialog.razor");
    (* Components - Settings *)
    ("Components/Settings/ApiKeySettingsPanel.razor", "Features/Settings/Components/ApiKeySettingsPanel.razor");
    ("Components/Settings/LanguageSelector.razor", "Features/Settings/Components/LanguageSelector.razor");
    ("Components/Settings/ThemeSelector.razor", "Features/Settings/Components/ThemeSelector.razor");
    ("Components/Settings/ViewPreferences.razor", "Features/Settings/Components/ViewPreferences.razor");
    (* Components - Common -> Shared *)
    ("Components/Common/ConfirmDialog.razor", "Shared/Components/ConfirmDialog.razor");
    ("Components/Common/DatasetSwitcher.razor", "Shared/Components/DatasetSwitcher.razor");
    ("Components/Common/EmptyState.razor", "Shared/Components/EmptyState.razor");
    ("Components/Common/ErrorBoundary.razor", "Shared/Components/ErrorBoundary.razor");
    ("Components/Common/LayoutSwitcher.razor", "Shared/Components/LayoutSwitcher.razor");
    ("Components/Common/LoadingIndicator.razor", "Shared/Components/LoadingIndicator.razor");
    (* Layout *)
    ("Layout/MainLayout.razor", "Shared/Layout/MainLayout.razor");
    ("Layout/MainLayout.razor.cs", "Shared/Layout/MainLayout.razor.cs");
    ("Layout/NavMenu.razor", "Shared/Layout/NavMenu.razor");
    ("Layout/NavMenu.razor.cs", "Shared/Layout/NavMenu.razor.cs");
    (* Services *)
    ("Services/Api/DatasetApiClient.cs", "Services/ApiClients/DatasetApiClient.cs");
    ("Services/Api/DatasetApiOptions.cs", "Services/ApiClients/DatasetApiOptions.cs");
    ("Services/DatasetIndexedDbCache.cs", "Services/Caching/IndexedDbCache.cs");
    ("Services/DatasetCacheService.cs", "Features/Datasets/Services/DatasetCacheService.cs");
    ("Services/ItemEditService.cs", "Features/Datasets/Services/ItemEditService.cs");
    ("Services/ImageUrlHelper.cs", "Features/Datasets/Services/ImageUrlHelper.cs");
    ("Services/JsInterop/FileReaderInterop.cs", "Services/Interop/FileReaderInterop.cs");
    ("Services/JsInterop/ImageLazyLoadInterop.cs", "Services/Interop/ImageLazyLoadInterop.cs");
    ("Services/JsInterop/IndexedDbInterop.cs", "Services/Interop/IndexedDbInterop.cs");
    ("Services/JsInterop/LocalStorageInterop.cs", "Services/Interop/LocalStorageInterop.cs");
    ("Services/NotificationService.cs", "Shared/Services/NotificationService.cs");
    ("Services/NavigationService.cs", "Shared/Services/NavigationService.cs");
    ("Services/StateManagement/ApiKeyState.cs", "Services/StateManagement/ApiKeyState.cs");
    ("Services/StateManagement/AppState.cs", "Services/StateManagement/AppState.cs");
    ("Services/StateManagement/DatasetState.cs", "Services/StateManagement/DatasetState.cs");
    ("Services/StateManagement/FilterState.cs", "Services/StateManagement/FilterState.cs");
    ("Services/StateManagement/ViewState.cs", "Services/StateManagement/ViewState.cs");
    (* Extensions *)
    ("Extensions/ServiceCollectionExtensions.cs", "Extensions/ServiceCollectionExtensions.cs")
  ].

(** Namespace mappings: (old_namespace_pattern, new_namespace).  The
    patterns are the raw strings of the script, backslashes included. *)
Definition NAMESPACE_REPLACEMENTS : list (string * string) :=
  [
    ("HartsysDatasetEditor\.Client\.Pages",
     "DatasetStudio.ClientApp.Features.Datasets.Pages");
    ("HartsysDatasetEditor\.Client\.Components\.Dataset",
     "DatasetStudio.ClientApp.Features.Datasets.Components");
    ("HartsysDatasetEditor\.Client\.Components\.Viewer",
     "DatasetStudio.ClientApp.Features.Datasets.Components");
    ("HartsysDatasetEditor\.Client\.Components\.Filter",
     "DatasetStudio.ClientApp.Features.Datasets.Components");
    ("HartsysDatasetEditor\.Client\.Components\.Dialogs",
     "DatasetStudio.ClientApp.Features.Datasets.Components");
    ("HartsysDatasetEditor\.Client\.Components\.Settings",
     "DatasetStudio.ClientApp.Features.Settings.Components");
    ("HartsysDatasetEditor\.Client\.Components\.Common",
     "DatasetStudio.ClientApp.Shared.Components");
    ("HartsysDatasetEditor\.Client\.Layout",
     "DatasetStudio.ClientApp.Shared.Layout");
    ("HartsysDatasetEditor\.Client\.Services\.Api",
     "DatasetStudio.ClientApp.Services.ApiClients");
    ("HartsysDatasetEditor\.Client\.Services\.JsInterop",
     "DatasetStudio.ClientApp.Services.Interop");
    ("HartsysDatasetEditor\.Client\.Services\.StateManagement",
     "DatasetStudio.ClientApp.Services.StateManagement");
    ("HartsysDatasetEditor\.Client\.Services",
     "DatasetStudio.ClientApp.Features.Datasets.Services");
    ("HartsysDatasetEditor\.Client\.Extensions",
     "DatasetStudio.ClientApp.Extensions");
    ("HartsysDatasetEditor\.Client",
     "DatasetStudio.ClientApp");
    ("HartsysDatasetEditor\.Core\.Models",
     "DatasetStudio.Core.DomainModels");
    ("HartsysDatasetEditor\.Core\.Enums",
     "DatasetStudio.Core.Enumerations");
    ("HartsysDatasetEditor\.Core\.Interfaces",
     "DatasetStudio.Core.Abstractions");
    ("HartsysDatasetEditor\.Core\.Services",
     "DatasetStudio.Core.BusinessLogic");
    ("HartsysDatasetEditor\.Core\.Services\.Layouts",
     "DatasetStudio.Core.BusinessLogic.Layouts");
    ("HartsysDatasetEditor\.Core\.Services\.Parsers",
     "DatasetStudio.Core.BusinessLogic.Parsers");
    ("HartsysDatasetEditor\.Core\.Services\.Providers",
     "DatasetStudio.Core.BusinessLogic.Modality");
    ("HartsysDatasetEditor\.Core",
     "DatasetStudio.Core");
    ("HartsysDatasetEditor\.Contracts",
     "DatasetStudio.DTO")
  ].

(** ** [update_content] *)

(** The [for] loop of [update_content] over a rule list: each rule is
    applied to the content the previous rules produced. *)
Fixpoint update_loop (rules : list (string * string)) (content : text)
  : option text :=
  match rules with
  | [] => Some content
  | (old_pattern, new_namespace) :: rest =>
      match Re.sub old_pattern new_namespace content with
      | Some content' => update_loop rest content'
      | None => None
      end
  end.

(** Update namespaces and using statements in file content. *)
Definition update_content (content : text) : option text :=
  update_loop NAMESPACE_REPLACEMENTS content.

(** *** The rule table after compilation *)

Definition compile_rule (rule : string * string) : option (text * text) :=
  match Re.compile (fst rule), Re.template (snd rule) with
  | Some p, Some r => Some (p, r)
  | _, _ => None
  end.

(** The rules as pairs of literals: every pattern of the table lies in the
    fragment, so the default is never used. *)
Definition rules : list (text * text) :=
  Eval vm_compute in
    default [] (mapM compile_rule NAMESPACE_REPLACEMENTS).

Definition apply_rule (content : text) (rule : text * text) : text :=
  Re.sub_literal (fst rule) (snd rule) content.

Definition apply_rules (rs : list (text * text)) (content : text) : text :=
  fold_left apply_rule rs content.

(** [applied_in_order table content out]: the rules of the table, taken
    in list order, lead from [content] to [out], each rule replacing all
    the matches of its pattern in what the rules before it produced. *)
Inductive applied_in_order : list (string * string) -> text -> text -> Prop :=
  | applied_none content :
      applied_in_order [] content content
  | applied_rule old_pattern new_namespace p r table content content' out :
      Re.compile old_pattern = Some p ->
      Re.template new_namespace = Some r ->
      Re.replaces_all p r content content' ->
      applied_in_order table content' out ->
      applied_in_order ((old_pattern, new_namespace) :: table) content out.

(** ** The operating system

    The script touches the outside world through [os.path.exists],
    [os.makedirs], [open]/[read], [open]/[write] and [print].  The world is
    the file tree together with the lines printed so far. *)

Inductive node :=
  | File (content : text)
  | Dir.

Record world := World {
  fs : gmap string node;
  console : list string
}.

(** The result of a call: a value, or an exception (with its message)
    travelling up to the caller. *)
Inductive outcome (A : Type) :=
  | Returned (a : A)
  | Raised (e : string).
Arguments Returned {A} a.
Arguments Raised {A} e.

(** Computations that read and change the world and may raise. *)
Definition M (A : Type) : Type := world -> outcome A * world.

#[export] Instance M_ret : MRet M := fun A a w => (Returned a, w).
#[export] Instance M_bind : MBind M := fun A B k m w =>
  match m w with
  | (Returned a, w') => k a w'
  | (Raised e, w') => (Raised e, w')
  end.

(** [try: ... except Exception as e:] runs the body and hands the message
    of a raised exception to the handler. *)
Definition try_except {A} (body : M A) (handler : string -> M A) : M A :=
  fun w =>
    match body w with
    | (Returned a, w') => (Returned a, w')
    | (Raised e, w') => handler e w'
    end.

Definition raise {A} (e : string) : M A := fun w => (Raised e, w).

(** How a write that the system refuses goes wrong: [open] fails and the
    file is untouched, or [write] fails after [open] truncated the file
    and [written] is what reached it. *)
Inductive write_fault :=
  | OpenError (e : string)
  | WriteError (e : string) (written : text).

(** What the file tree does not tell about the system: its line
    separator, and the failures that no file tree explains (permissions,
    a name that is too long, a full disk, bytes that are not UTF-8).
    For each path, whether [os.mkdir] of a missing directory, reading
    or writing fails there, and with which message. *)
Record faults := Faults {
  linesep : line_separator;
  mkdir_err : string -> option string;
  read_err : string -> option string;
  write_err : string -> option write_fault
}.

(** A POSIX system on which nothing fails. *)
Definition no_faults : faults :=
  Faults Posix (fun _ => None) (fun _ => None) (fun _ => None).

Definition is_file (m : gmap string node) (p : string) : bool :=
  match m !! p with Some (File _) => true | _ => false end.

Definition is_dir (m : gmap string node) (p : string) : bool :=
  match m !! p with Some Dir => true | _ => false end.

(** [m'] is [m] with new directories at paths of [ds]; nothing that was
    there has changed. *)
Definition grown (m m' : gmap string node) (ds : list string) : Prop :=
  forall k,
    m' !! k = m !! k \/ (m !! k = None /\ m' !! k = Some Dir /\ k ∈ ds).

Section Os.
(** [os.path.join] and [os.path.dirname] belong to the platform. *)
Variable join : string -> string -> string.
Variable dirname : string -> string.
Variable os : faults.

(** [print(line)] *)
Definition print (line : string) : M unit :=
  fun w => (Returned (), World (fs w) (console w ++ [line])).

(** [os.path.exists(p)]: true for files and directories alike. *)
Definition path_exists (p : string) : M bool :=
  fun w => (Returned (bool_decide (is_Some (fs w !! p))), w).

(** The directories above [p], nearest first. *)
Fixpoint parents_upto (n : nat) (p : string) : list string :=
  match n with
  | O => []
  | S k =>
      let h := dirname p in
      if bool_decide (h = p) || bool_decide (h = "") then []
      else h :: parents_upto k h
  end.

Definition parents (p : string) : list string :=
  parents_upto (String.length p) p.

Definition ensure_dir (m : gmap string node) (d : string)
  : gmap string node :=
  match m !! d with Some _ => m | None => <[d := Dir]> m end.

(** [os.makedirs] cannot get past [d]: a regular file stands there, or
    [d] is missing and the system refuses to make it. *)
Definition blocked (m : gmap string node) (d : string) : bool :=
  match m !! d with
  | Some (File _) => true
  | Some Dir => false
  | None => bool_decide (is_Some (mkdir_err os d))
  end.

(** The directories of [ds], outermost first, are made one after the
    other: one that is there is left alone, a missing one is made with
    [os.mkdir].  The first failure ends the walk with its exception,
    and the directories made before it stay.  A regular file in the
    place of the last directory gives [FileExistsError]; higher up it
    makes [os.mkdir] of the directory below it fail with
    [NotADirectoryError]. *)
Fixpoint makedirs_down (ds : list string) : M unit :=
  match ds with
  | [] => mret ()
  | d :: below =>
      fun w =>
        match fs w !! d with
        | Some Dir => makedirs_down below w
        | Some (File _) =>
            (Raised (match below with
                     | [] => "[Errno 17] File exists: " ++ repr d
                     | child :: _ =>
                         "[Errno 20] Not a directory: " ++ repr child
                     end), w)
        | None =>
            match mkdir_err os d with
            | Some e => (Raised e, w)
            | None =>
                makedirs_down below
                  (World (<[d := Dir]> (fs w)) (console w))
            end
        end
  end.

(** [os.makedirs(d, exist_ok=True)]: makes [d] and the missing
    directories above it, from the outermost one inwards.  The file
    tree is taken to be a tree: what exists has directories above it. *)
Definition makedirs (d : string) : M unit :=
  makedirs_down (rev (d :: parents d)).

(** [with open(p, 'r', encoding='utf-8') as f: f.read()]: the
    characters of the file, with line ends translated. *)
Definition read_text (p : string) : M text :=
  fun w =>
    match read_err os p with
    | Some e => (Raised e, w)
    | None =>
        match fs w !! p with
        | Some (File stored) => (Returned (read_newlines stored), w)
        | Some Dir => (Raised ("[Errno 21] Is a directory: " ++ repr p), w)
        | None =>
            (Raised ("[Errno 2] No such file or directory: " ++ repr p), w)
        end
    end.

(** [with open(p, 'w', encoding='utf-8') as f: f.write(content)]: an
    existing file is replaced; what is stored is [content] with the
    line separator of the system. *)
Definition write_text (p : string) (content : text) : M unit :=
  fun w =>
    match write_err os p with
    | Some (OpenError e) => (Raised e, w)
    | Some (WriteError e written) =>
        if is_dir (fs w) p
        then (Raised ("[Errno 21] Is a directory: " ++ repr p), w)
        else (Raised e, World (<[p := File written]> (fs w)) (console w))
    | None =>
        if is_dir (fs w) p
        then (Raised ("[Errno 21] Is a directory: " ++ repr p), w)
        else (Returned (),
              World (<[p := File (write_newlines (linesep os) content)]>
                       (fs w))
                    (console w))
    end.

(** ** [migrate_file] and [main] *)

(** Migrate a single file from source to destination. *)
Definition migrate_file (src_rel dest_rel : string) : M bool :=
  let src_path := join SRC_BASE src_rel in
  let dest_path := join DEST_BASE dest_rel in
  found ← path_exists src_path;
  if negb found then
    print ("  [SKIP] Source not found: " ++ src_rel);;
    mret false
  else
    (* Create destination directory if it doesn't exist *)
    let dest_dir := dirname dest_path in
    makedirs dest_dir;;
    (* Read source file *)
    r ← try_except (content ← read_text src_path; mret (Some content))
          (fun e =>
             print ("  [ERROR] Failed to read " ++ src_rel ++ ": " ++ e);;
             mret None);
    match r with
    | None => mret false
    | Some content =>
        (* Update namespaces *)
        match update_content content with
        | None => raise "re.error"
        | Some updated_content =>
            (* Write to destination *)
            try_except
              (write_text dest_path updated_content;;
               print ("  [OK] " ++ src_rel ++ " -> " ++ dest_rel);;
               mret true)
              (fun e =>
                 print ("  [ERROR] Failed to write " ++ dest_rel
                        ++ ": " ++ e);;
                 mret false)
        end
    end.

(** The loop of [main] with its two counters. *)
Fixpoint main_loop (mappings : list (string * string))
    (success_count fail_count : nat) : M (nat * nat) :=
  match mappings with
  | [] => mret (success_count, fail_count)
  | (src_rel, dest_rel) :: rest =>
      ok ← migrate_file src_rel dest_rel;
      if (ok : bool) then main_loop rest (success_count + 1) fail_count
      else main_loop rest success_count (fail_count + 1)
  end.

Definition summary (success_count fail_count : nat) : string :=
  "Migration complete: " ++ pretty success_count ++ " succeeded, "
  ++ pretty fail_count ++ " failed".

(** [main], over a list of mappings. *)
Definition main_on (mappings : list (string * string)) : M unit :=
  print "Starting ClientApp migration...";;
  print ("Source: " ++ SRC_BASE);;
  print ("Destination: " ++ DEST_BASE);;
  print ("Files to migrate: " ++ pretty (length mappings));;
  print "";;
  counts ← main_loop mappings 0 0;
  print "";;
  print (summary counts.1 counts.2).

(** Main migration function. *)
Definition main : M unit := main_on FILE_MAPPINGS.

(** The exit status of [python migrate_client.py]: 0 when [main]
    returns, 1 when an exception leaves it. *)
Definition exit_status (w : world) : nat :=
  match main w with
  | (Returned _, _) => 0
  | (Raised _, _) => 1
  end.
End Os.

(** ** A concrete platform

    A simple reading of the Windows path functions, enough for the
    relative paths of the table: [join] puts a backslash between base and
    relative path, [dirname] cuts at the last separator. *)

Module Platform.

Definition is_sep (c : ascii) : bool :=
  Ascii.eqb c "/"%char || Ascii.eqb c "\"%char.

Definition join (base rel : string) : string := base ++ "\" ++ rel.

Fixpoint head_of (p : string) : option string :=
  match p with
  | EmptyString => None
  | String c rest =>
      match head_of rest with
      | Some h => Some (String c h)
      | None => if is_sep c then Some EmptyString else None
      end
  end.

Definition dirname (p : string) : string := default "" (head_of p).

Definition src_path (src_rel : string) : string := join SRC_BASE src_rel.
Definition dest_path (dest_rel : string) : string := join DEST_BASE dest_rel.

End Platform.

(** ** Runs of [main]

    What the specification calls a run in which some sources are missing
    and the others are read and written successfully. *)

Section Scenario.
Variable join : string -> string -> string.
Variable dirname : string -> string.
Variable os : faults.

(** Nothing stands in the way of migrating this mapping in the file
    tree [m]: the source is a regular file the system lets us read, the
    destination directory can be made, and the destination can be
    written. *)
Definition can_migrate (m : gmap string node) (src_rel dest_rel : string)
  : bool :=
  let src_path := join SRC_BASE src_rel in
  let dest_path := join DEST_BASE dest_rel in
  let dest_dir := dirname dest_path in
  let made := dest_dir :: parents dirname dest_dir in
  is_file m src_path
  && bool_decide (read_err os src_path = None)
  && negb (existsb (blocked os m) made)
  && negb (is_dir (foldl ensure_dir m made) dest_path)
  && match write_err os dest_path with None => true | Some _ => false end.

(** The file tree a call of [migrate_file] leaves behind. *)
Definition after (m : gmap string node) (src_rel dest_rel : string)
  : gmap string node :=
  fs (migrate_file join dirname os src_rel dest_rel (World m [])).2.

(** [scenario m mappings k]: started in the file tree [m], each mapping
    of the list meets, when its turn comes, either a missing source or a
    source it can migrate, and [k] of them meet a missing source. *)
Inductive scenario : gmap string node -> list (string * string) -> nat -> Prop :=
  | scenario_done m :
      scenario m [] 0
  | scenario_missing m src_rel dest_rel rest k :
      m !! join SRC_BASE src_rel = None ->
      scenario (after m src_rel dest_rel) rest k ->
      scenario m ((src_rel, dest_rel) :: rest) (S k)
  | scenario_present m src_rel dest_rel rest k :
      can_migrate m src_rel dest_rel = true ->
      scenario (after m src_rel dest_rel) rest k ->
      scenario m ((src_rel, dest_rel) :: rest) k.

(** The five lines [main] prints before the loop. *)
Definition banner (n : nat) : list string :=
  [ "Starting ClientApp migration...";
    "Source: " ++ SRC_BASE;
    "Destination: " ++ DEST_BASE;
    "Files to migrate: " ++ pretty n;
    "" ].

(** The files below the destination base, as the claims about
    destination contents see them. *)
Definition final_fs (mappings : list (string * string)) (w : world)
  : gmap string node :=
  fs (main_on join dirname os mappings w).2.
End Scenario.

(** ** Sample worlds *)

Module Sample.
Import Platform.

Definition first_src : string := "Pages/MyDatasets.razor.cs".
Definition first_dest : string :=
  "Features/Datasets/Pages/DatasetLibrary.razor.cs".

Definition page : text := cp "namespace HartsysDatasetEditor.Client.Pages;".

(** The file tree that holds these nodes and, above each of them, the
    directories that lead to it. *)
Definition tree (nodes : list (string * node)) : gmap string node :=
  foldr (fun (entry : string * node) m =>
           <[entry.1 := entry.2]>
             (foldl ensure_dir m (parents dirname entry.1)))
        ∅ nodes.

(** The first source exists; an older copy sits at its destination. *)
Definition w_first : world :=
  World (tree [ (src_path first_src, File page);
                (dest_path first_dest, File (cp "stale")) ]) [].

(** Nothing exists. *)
Definition w_empty : world := World ∅ [].

(** The first source exists, and a regular file occupies the path of its
    destination directory. *)
Definition w_blocked : world :=
  World (tree [ (src_path first_src, File page);
                (dest_path "Features/Datasets/Pages", File []) ]) [].

(** The first and the sixth source exist, and a regular file occupies
    the path of the sixth destination's directory. *)
Definition w_second_blocked : world :=
  World (tree [ (src_path first_src, File page);
                (src_path "Pages/Settings.razor", File page);
                (dest_path "Features/Settings/Pages", File []) ]) [].

(** A directory stands at the path of the first source. *)
Definition w_directory : world :=
  World (tree [ (src_path first_src, Dir) ]) [].

(** The first source has lines that end in CR LF and in CR. *)
Definition mixed_lines : text := [97; CR; LF; 98; CR; 99]%N.

Definition w_mixed : world :=
  World (tree [ (src_path first_src, File mixed_lines) ]) [].

Definition permission_denied (p : string) : string :=
  "[Errno 13] Permission denied: " ++ repr p.

(** A system that refuses to read the first source. *)
Definition os_unreadable : faults :=
  Faults Posix (fun _ => None)
         (fun p => if bool_decide (p = src_path first_src)
                   then Some (permission_denied p) else None)
         (fun _ => None).

(** A system that refuses to open the first destination for writing. *)
Definition os_readonly : faults :=
  Faults Posix (fun _ => None) (fun _ => None)
         (fun p => if bool_decide (p = dest_path first_dest)
                   then Some (OpenError (permission_denied p))
                   else None).

(** A system with the line separator of Windows. *)
Definition os_windows : faults :=
  Faults Windows (fun _ => None) (fun _ => None) (fun _ => None).

(** The destination base is there, and the system refuses to make the
    directory [Features/Datasets] below it: the directory [Features]
    is made before [os.makedirs] fails. *)
Definition w_base : world :=
  World (tree [ (src_path first_src, File page); (DEST_BASE, Dir) ]) [].

Definition os_no_datasets : faults :=
  Faults Posix
         (fun p => if bool_decide (p = dest_path "Features/Datasets")
                   then Some (permission_denied p) else None)
         (fun _ => None) (fun _ => None).

(** The table with its sixth mapping moved to the front. *)
Definition sixth_first : list (string * string) :=
  ("Pages/Settings.razor", "Features/Settings/Pages/Settings.razor")
  :: take 5 FILE_MAPPINGS ++ drop 6 FILE_MAPPINGS.

End Sample.

(** ** Checks on a rule table *)

(** [removed_by rs q]: some rule of [rs] has the pattern [q] and a
    replacement that is inert for [q], and so are the replacements of all
    the rules after it. *)
Fixpoint removed_by (rs : list (text * text)) (q : text) : bool :=
  match rs with
  | [] => false
  | (p, r) :: rest =>
      bool_decide (p = q) && Re.inert q r
      && forallb (fun rule : text * text =>
                    negb (bool_decide (rule.1 = [])) && Re.inert q rule.2) rest
      || removed_by rest q
  end.

(** The three namespaces every pattern of the table begins with; each is
    itself the pattern of a rule. *)
Definition stems : list text :=
  [ cp "HartsysDatasetEditor.Client";
    cp "HartsysDatasetEditor.Core";
    cp "HartsysDatasetEditor.Contracts" ].

(** Every pattern of [rs] begins with one of the [qs]. *)
Definition covered_by (qs : list text) (rs : list (text * text)) : bool :=
  forallb (fun rule : text * text =>
             negb (bool_decide (rule.1 = []))
             && existsb (fun q => Re.starts_with q rule.1) qs) rs.

(** [splits_around rs m]: while the rules of [rs] are applied in order to
    a text that holds [m], no match crosses a border of (what has become
    of) [m]. *)
Fixpoint splits_around (rs : list (text * text)) (m : text) : bool :=
  match rs with
  | [] => true
  | (p, r) :: rest =>
      negb (bool_decide (p = []))
      && Re.cannot_continue p m && Re.contains_matches p m
      && splits_around rest (Re.sub_literal p r m)
  end.

(** The rules for [Core.Services.Layouts], [Core.Services.Parsers] and
    [Core.Services.Providers] stand at positions 18, 19 and 20 of the
    table (counting from 0), right behind the rule for [Core.Services]. *)
Definition shadowed : list nat := [18; 19; 20].

Definition pattern_at (k : nat) : text := (default ([], []) (rules !! k)).1.

(** The table without the three shadowed rules. *)
Definition without_shadowed : list (string * string) :=
  take 18 NAMESPACE_REPLACEMENTS ++ drop 21 NAMESPACE_REPLACEMENTS.

Definition services_providers : text :=
  cp "HartsysDatasetEditor.Core.Services.Providers".
Definition business_logic_providers : text :=
  cp "DatasetStudio.Core.BusinessLogic.Providers".
Definition business_logic_modality : text :=
  cp "DatasetStudio.Core.BusinessLogic.Modality".

(** ** Rules with a shorter rule behind them *)

Definition strict_prefix (q p : text) : bool :=
  Re.starts_with q p && negb (bool_decide (q = p)).

(** The rules whose pattern has a strict prefix among the patterns of
    the rules after them. *)
Fixpoint narrowed_rules (rs : list (text * text)) : list (text * text) :=
  match rs with
  | [] => []
  | rule :: rest =>
      if existsb (fun rule' : text * text => strict_prefix rule'.1 rule.1) rest
      then rule :: narrowed_rules rest
      else narrowed_rules rest
  end.

(** A match of this rule's pattern is replaced in its place, whatever
    stands around it. *)
Definition in_place (rule : text * text) : bool :=
  splits_around rules rule.1
  && bool_decide (apply_rules rules rule.1 = rule.2).

Definition client_pages : text := cp "HartsysDatasetEditor.Client.Pages".
Definition client_services : text := cp "HartsysDatasetEditor.Client.Services".
Definition datasets_services : text :=
  cp "DatasetStudio.ClientApp.Features.Datasets.Services".

(** The three longer names the table has rules for; their rules stand
    before the rule for [Client.Services]. *)
Definition services_extensions : list text :=
  map cp [".Api"; ".JsInterop"; ".StateManagement"].

(** No replacement of [rs] can begin [q] or run into it: a text that
    begins with [q] after the rules began with [q] before. *)
Definition keeps_start (q : text) (rs : list (text * text)) : bool :=
  forallb (fun rule : text * text =>
             negb (bool_decide (rule.1 = []))
             && forallb (fun q' => negb (Re.compatible q' rule.2))
                        (Re.suffixes q)) rs.

(** The replacement [r] stands in the place of the match of [p] between
    [u] and [v], and the text before and the text after it are rewritten
    on their own. *)
Definition replaced_in_place (p r u v : text) : Prop :=
  exists u' v',
    update_content u = Some u' /\ update_content v = Some v' /\
    update_content (u ++ p ++ v)%list = Some (u' ++ r ++ v')%list.
Definition features_pages : text :=
  cp "DatasetStudio.ClientApp.Features.Datasets.Pages".
Definition components_dot : text :=
  cp "HartsysDatasetEditor.Client.Components.".

(** ** The footprint of a mapping

    What one call of [migrate_file] looks at and what it changes, written
    out on file trees.  These definitions are compared with the code in
    [migrate_file_effect]. *)

Section Footprint.
Variable join : string -> string -> string.
Variable dirname : string -> string.
Variable os : faults.

Definition src_of (mapping : string * string) : string :=
  join SRC_BASE mapping.1.
Definition dest_of (mapping : string * string) : string :=
  join DEST_BASE mapping.2.

(** The directories [os.makedirs] is asked for. *)
Definition made_of (mapping : string * string) : list string :=
  let dest_dir := dirname (dest_of mapping) in
  dest_dir :: parents dirname dest_dir.

(** The call raises: the source exists and the directories cannot be
    made. *)
Definition raises (m : gmap string node) (mapping : string * string) : bool :=
  bool_decide (is_Some (m !! src_of mapping))
  && existsb (blocked os m) (made_of mapping).

(** What the call puts at the destination path, if anything, once the
    directories are there. *)
Definition written (m1 : gmap string node) (mapping : string * string)
  : option node :=
  match read_err os (src_of mapping) with
  | Some _ => None
  | None =>
      match m1 !! src_of mapping with
      | Some (File stored) =>
          match write_err os (dest_of mapping) with
          | Some (OpenError _) => None
          | Some (WriteError _ partial) =>
              if is_dir m1 (dest_of mapping) then None
              else Some (File partial)
          | None =>
              if is_dir m1 (dest_of mapping) then None
              else Some (File (write_newlines (linesep os)
                                 (apply_rules rules (read_newlines stored))))
          end
      | _ => None
      end
  end.

(** The file tree after a call that does not raise. *)
Definition effect (m : gmap string node) (mapping : string * string)
  : gmap string node :=
  if bool_decide (is_Some (m !! src_of mapping)) then
    let m1 := foldl ensure_dir m (made_of mapping) in
    match written m1 mapping with
    | Some n => <[dest_of mapping := n]> m1
    | None => m1
    end
  else m.

(** Running [a] does not disturb [b]: it neither creates nor replaces
    anything at the source or destination of [b], and writes no file
    where [b] needs a directory. *)
Definition apart (a b : string * string) : bool :=
  negb (bool_decide (src_of b ∈ dest_of a :: made_of a))
  && negb (bool_decide (dest_of b ∈ dest_of a :: made_of a))
  && negb (bool_decide (dest_of a ∈ made_of b)).

(** The mappings of a list are pairwise apart, and no destination is one
    of its own directories. *)
Definition independent (mappings : list (string * string)) : bool :=
  forallb (fun a =>
             negb (bool_decide (dest_of a ∈ made_of a))
             && forallb (fun b => bool_decide (a = b) || apart a b) mappings)
          mappings.

(** The file tree after the calls for a list of mappings, none of which
    raises. *)
Definition effects (mappings : list (string * string))
    (m : gmap string node) : gmap string node :=
  foldl effect m mappings.

(** No call of the run raises. *)
Fixpoint clean (mappings : list (string * string)) (m : gmap string node)
  : bool :=
  match mappings with
  | [] => true
  | mapping :: rest => negb (raises m mapping) && clean rest (effect m mapping)
  end.
End Footprint.

(** ** Console lines *)

(** The line [migrate_file] prints on success. *)
Definition is_ok_line (line : string) : bool := String.prefix "  [OK] " line.

(** A line printed by [migrate_file]: each starts with two blanks and a
    bracket. *)
Definition is_progress_line (line : string) : bool :=
  String.prefix "  [" line.

(** ** Sources outside the destination tree *)

Section SourcesApart.
Variable join : string -> string -> string.
Variable dirname : string -> string.

(** No mapping has its source at its own destination or at a directory
    made for it. *)
Definition sources_apart (mappings : list (string * string)) : bool :=
  forallb (fun a =>
             negb (bool_decide
                     (src_of join a ∈ (dest_of join a :: made_of join dirname a))))
          mappings.
End SourcesApart.

(** ** The alphabet of the patterns *)

(** The root namespace every pattern of the table begins with. *)
Definition old_root : text := cp "HartsysDatasetEditor".

(** The characters the patterns are made of: ASCII letters and the full
    stop. *)
Definition is_name_char (c : N) : bool :=
  ((65 <=? c) && (c <=? 90) || (97 <=? c) && (c <=? 122) || (c =? 46))%N.

(** Every pattern of [rs] is a non-empty literal of such characters. *)
Definition names_only (rs : list (text * text)) : bool :=
  forallb (fun rule : text * text =>
             negb (bool_decide (rule.1 = [])) && forallb is_name_char rule.1)
          rs.

(** ** Evaluation

    Closed goals are settled by evaluation. *)
Ltac by_vm :=
  lazymatch goal with
  | |- @eq ?T _ ?rhs => vm_cast_no_check (@eq_refl T rhs)
  | |- Is_true _ => vm_cast_no_check I
  end.


(** * Properties *)

Local Open Scope list_scope.

(** ** Literal patterns *)

Section LiteralFacts.
Context {A : Type} `{EqDecision A}.
Implicit Types p q r s t l u : list A.

Lemma starts_with_iff p s :
  Re.starts_with p s = true <-> exists t, s = p ++ t.
Proof.
  revert s. induction p as [|a p IH]; intros s; cbn.
  - split; eauto.
  - destruct s as [|b s].
    + split; [discriminate|]. intros [t Ht]. discriminate.
    + rewrite andb_true_iff, bool_decide_eq_true, IH. split.
      * intros [-> [t ->]]. eauto.
      * intros [t [= -> ->]]. eauto.
Qed.

Lemma starts_with_app p t : Re.starts_with p (p ++ t) = true.
Proof. apply starts_with_iff. eauto. Qed.

Lemma starts_with_extend p s t :
  Re.starts_with p s = true -> Re.starts_with p (s ++ t) = true.
Proof.
  rewrite !starts_with_iff. intros [x ->]. exists (x ++ t).
  by rewrite app_assoc.
Qed.

Lemma starts_with_length p s :
  Re.starts_with p s = true -> length p <= length s.
Proof.
  rewrite starts_with_iff. intros [t ->]. rewrite length_app. lia.
Qed.

(** A match in [x ++ y] lies in [x], or runs over the end of [x] and
    goes on in [y]. *)
Lemma starts_with_split p x y :
  Re.starts_with p (x ++ y) = true ->
  Re.starts_with p x = true
  \/ exists p', p = x ++ p' /\ p' <> [] /\ Re.starts_with p' y = true.
Proof.
  revert x. induction p as [|a p IH]; intros x; [by left|].
  destruct x as [|b x]; cbn.
  - intros Hy. right. exists (a :: p). by repeat split.
  - rewrite !andb_true_iff. intros [Hab Hp].
    destruct (IH _ Hp) as [Hx|(p' & -> & Hne & Hp')]; [left; by split|].
    right. exists p'. apply bool_decide_eq_true in Hab as ->. by repeat split.
Qed.

Lemma starts_with_compatible q x y :
  Re.starts_with q (x ++ y) = true -> Re.compatible q x = true.
Proof.
  intros Hq. unfold Re.compatible. apply orb_true_iff.
  destruct (starts_with_split _ _ _ Hq) as [Hx|(q' & -> & _ & _)].
  - by left.
  - right. apply starts_with_app.
Qed.

Lemma starts_with_trans q p s :
  Re.starts_with q p = true -> Re.starts_with p s = true ->
  Re.starts_with q s = true.
Proof.
  rewrite !starts_with_iff. intros [x ->] [y ->]. exists (x ++ y).
  by rewrite app_assoc.
Qed.

(** *** The scan *)

Lemma sub_go_skip p r k s :
  Re.sub_go p r k s = Re.sub_go p r 0 (drop k s).
Proof.
  revert k. induction s as [|c s IH]; intros [|k]; try reflexivity.
  cbn [Re.sub_go drop]. apply IH.
Qed.

Lemma scan_nomatch p r c t :
  Re.starts_with p (c :: t) = false ->
  Re.sub_go p r 0 (c :: t) = c :: Re.sub_go p r 0 t.
Proof. intros Hno. cbn [Re.sub_go]. by rewrite Hno. Qed.

Lemma scan_match p r t :
  p <> [] -> Re.sub_go p r 0 (p ++ t) = r ++ Re.sub_go p r 0 t.
Proof.
  destruct p as [|a p]; [done|]. intros _.
  cbn [app Re.sub_go].
  change (a :: p ++ t) with ((a :: p) ++ t). rewrite starts_with_app.
  rewrite sub_go_skip.
  replace (length (a :: p) - 1) with (length p) by (cbn; lia).
  by rewrite drop_app_length.
Qed.

(** Reasoning along the scan: the subject is empty, or starts with a
    character that is copied, or starts with a match. *)
Lemma scan_ind p (P : list A -> Prop) :
  p <> [] ->
  P [] ->
  (forall c t, Re.starts_with p (c :: t) = false -> P t -> P (c :: t)) ->
  (forall t, P t -> P (p ++ t)) ->
  forall s, P s.
Proof.
  intros Hp Hnil Hcopy Hmatch s.
  remember (length s) as n eqn:Hn. revert s Hn.
  induction n as [n IH] using lt_wf_ind. intros s ->.
  destruct s as [|c t]; [exact Hnil|].
  destruct (Re.starts_with p (c :: t)) eqn:Hm.
  - apply starts_with_iff in Hm as [t' Ht']. rewrite Ht'.
    apply Hmatch. apply (IH (length t')); [|reflexivity].
    rewrite Ht', length_app. destruct p; [done|cbn; lia].
  - apply Hcopy; [exact Hm|]. apply (IH (length t)); [cbn; lia|reflexivity].
Qed.

(** *** Occurrences *)

Lemma occurs_cons_false q c t :
  Re.occurs q (c :: t) = false <->
  Re.starts_with q (c :: t) = false /\ Re.occurs q t = false.
Proof. cbn [Re.occurs]. apply orb_false_iff. Qed.

Lemma occurs_here q s : Re.starts_with q s = true -> Re.occurs q s = true.
Proof. intros Hq. destruct s; cbn [Re.occurs]; rewrite Hq; done. Qed.

Lemma occurs_app_r q x t :
  Re.occurs q t = true -> Re.occurs q (x ++ t) = true.
Proof.
  intros Ht. induction x as [|c x IH]; [exact Ht|].
  cbn [app Re.occurs]. rewrite IH. apply orb_true_r.
Qed.

Lemma occurs_app_l q x y :
  Re.occurs q x = true -> Re.occurs q (x ++ y) = true.
Proof.
  induction x as [|c x IH]; intros Hx.
  - cbn in Hx. rewrite orb_false_r in Hx.
    apply occurs_here. by apply (starts_with_extend _ []).
  - cbn [Re.occurs] in Hx. apply orb_true_iff in Hx as [Hx|Hx].
    + apply occurs_here. by apply (starts_with_extend _ (c :: x)).
    + cbn [app Re.occurs]. rewrite IH by exact Hx. apply orb_true_r.
Qed.

Lemma occurs_length q s : Re.occurs q s = true -> length q <= length s.
Proof.
  induction s as [|c s IH]; cbn [Re.occurs].
  - rewrite orb_false_r. apply starts_with_length.
  - intros [Hq|Hq]%orb_true_iff.
    + by apply starts_with_length.
    + cbn. specialize (IH Hq). lia.
Qed.

(** An occurrence of [p] is an occurrence of each prefix of [p]. *)
Lemma occurs_prefix q p s :
  Re.starts_with q p = true -> Re.occurs p s = true -> Re.occurs q s = true.
Proof.
  intros Hqp. induction s as [|c s IH]; cbn [Re.occurs].
  - rewrite !orb_false_r. apply starts_with_trans, Hqp.
  - intros [Hp|Hp]%orb_true_iff.
    + rewrite (starts_with_trans _ _ _ Hqp Hp). done.
    + rewrite IH by exact Hp. apply orb_true_r.
Qed.

Lemma occurs_app q l s :
  q <> [] -> Re.occurs q (l ++ s) = Re.occurs_in q l s || Re.occurs q s.
Proof.
  intros Hq. induction l as [|c l IH]; [reflexivity|].
  cbn [app Re.occurs Re.occurs_in]. rewrite IH. by rewrite orb_assoc.
Qed.

Lemma occurs_in_app q l m s :
  Re.occurs_in q (l ++ m) s =
  Re.occurs_in q l (m ++ s) || Re.occurs_in q m s.
Proof.
  induction l as [|c l IH]; [reflexivity|].
  cbn [app Re.occurs_in]. rewrite IH, <- app_assoc. by rewrite orb_assoc.
Qed.

Lemma occurs_in_false q l s :
  Re.occurs_in q l s = false <->
  forall l1 l2, l = l1 ++ l2 -> l2 <> [] ->
                Re.starts_with q (l2 ++ s) = false.
Proof.
  induction l as [|c l IH]; cbn [Re.occurs_in].
  - split; [|done]. intros _ l1 l2 Hl Hne.
    symmetry in Hl. apply app_eq_nil in Hl as [_ ->]. done.
  - rewrite orb_false_iff, IH. split.
    + intros [Hhere Hlater] l1 l2 Hl Hne. destruct l1 as [|c' l1].
      * cbn in Hl. by subst l2.
      * injection Hl as -> ->. by apply (Hlater l1).
    + intros Hall. split.
      * by apply (Hall [] (c :: l)).
      * intros l1 l2 -> Hne. by apply (Hall (c :: l1) l2).
Qed.

(** A pattern that does not occur is not replaced. *)
Lemma scan_absent p r s :
  Re.occurs p s = false -> Re.sub_go p r 0 s = s.
Proof.
  induction s as [|c s IH]; [reflexivity|].
  intros [Hhere Hlater]%occurs_cons_false.
  rewrite scan_nomatch by exact Hhere. by rewrite IH.
Qed.

Lemma sub_literal_absent p r s :
  p <> [] -> Re.occurs p s = false -> Re.sub_literal p r s = s.
Proof. destruct p; [done|]. intros _. apply scan_absent. Qed.
End LiteralFacts.


(** ** The scan replaces every leftmost match *)

Section ScanSpec.
Context {A : Type} `{EqDecision A}.
Implicit Types p q r s t l u : list A.

Lemma occurs_nil_l s : Re.occurs (A:=A) [] s = true.
Proof. by destruct s. Qed.

Lemma occurs_nil_r p : p <> [] -> Re.occurs p [] = false.
Proof. by destruct p. Qed.

Lemma removelast_snoc p :
  p <> [] -> exists a, p = removelast p ++ [a].
Proof.
  destruct p as [|a0 p]; [done|]. intros Hp.
  exists (List.last (a0 :: p) a0). by apply app_removelast_last.
Qed.

Lemma occurs_removelast p : p <> [] -> Re.occurs p (removelast p) = false.
Proof.
  intros Hp. destruct (Re.occurs p (removelast p)) eqn:Ho; [|done].
  apply occurs_length in Ho.
  destruct (removelast_snoc p Hp) as [a Ha].
  rewrite Ha in Ho at 1. rewrite length_app in Ho. cbn in Ho. lia.
Qed.

Lemma starts_with_short p x y :
  Re.starts_with p (x ++ y) = true -> length p <= length x ->
  Re.starts_with p x = true.
Proof.
  intros Hp Hlen.
  destruct (starts_with_split _ _ _ Hp) as [Hx|(p' & -> & Hne & _)]; [done|].
  rewrite length_app in Hlen. destruct p'; [done|cbn in Hlen; lia].
Qed.

(** With the first occurrence of [p] right after [u], a match at the
    head of [u ++ p ++ rest] needs [u] to be empty. *)
Lemma no_match_before_first p c u rest :
  Re.occurs p ((c :: u) ++ removelast p) = false ->
  Re.starts_with p ((c :: u) ++ p ++ rest) = false.
Proof.
  intros Hocc.
  destruct (Re.starts_with p ((c :: u) ++ p ++ rest)) eqn:Hm; [|done].
  assert (Hp : p <> []).
  { intros ->. by rewrite occurs_nil_l in Hocc. }
  destruct (removelast_snoc p Hp) as [a Ha].
  assert (Hm' : Re.starts_with p ((c :: u) ++ removelast p) = true).
  { apply (starts_with_short _ _ ([a] ++ rest)).
    - rewrite <- app_assoc, (app_assoc (removelast p)), <- Ha. exact Hm.
    - rewrite Ha at 1. rewrite !length_app. cbn. lia. }
  cbn [app] in Hm', Hocc.
  apply occurs_cons_false in Hocc as [Hhere _]. congruence.
Qed.

Lemma scan_before_first p r u rest :
  Re.occurs p (u ++ removelast p) = false ->
  Re.sub_go p r 0 (u ++ p ++ rest) = u ++ Re.sub_go p r 0 (p ++ rest).
Proof.
  induction u as [|c u IH]; intros Hocc; [reflexivity|].
  pose proof (no_match_before_first _ _ _ rest Hocc) as Hno.
  cbn [app] in *. rewrite scan_nomatch by exact Hno.
  apply occurs_cons_false in Hocc as [_ Hocc]. by rewrite IH.
Qed.

Lemma replaces_all_nonempty p r s out :
  Re.replaces_all p r s out -> p <> [].
Proof.
  intros Hrep ->. destruct Hrep as [u Hu|u rest out Hu _];
    by rewrite occurs_nil_l in Hu.
Qed.

(** The relation determines the output: it is what the scan computes. *)
Lemma replaces_all_scan p r s out :
  Re.replaces_all p r s out -> out = Re.sub_go p r 0 s.
Proof.
  intros Hrep. pose proof (replaces_all_nonempty _ _ _ _ Hrep) as Hp.
  induction Hrep as [u Hu|u rest out Hu _ IH].
  - by rewrite scan_absent.
  - rewrite scan_before_first by exact Hu.
    rewrite scan_match by exact Hp. by rewrite <- IH.
Qed.

(** And the scan is in the relation. *)
Lemma scan_replaces_all p r s :
  p <> [] -> Re.replaces_all p r s (Re.sub_go p r 0 s).
Proof.
  intros Hp. revert s. apply (scan_ind p); [exact Hp|..].
  - cbn. apply Re.replaces_none. by apply occurs_nil_r.
  - intros c t Hno IH. rewrite scan_nomatch by exact Hno.
    remember (Re.sub_go p r 0 t) as out eqn:Hout.
    destruct IH as [u Hu|u rest out Hu Hrest].
    + apply Re.replaces_none. apply occurs_cons_false. by split.
    + apply (Re.replaces_first p r (c :: u) rest out); [|exact Hrest].
      apply occurs_cons_false. split; [|exact Hu].
      destruct (Re.starts_with p ((c :: u) ++ removelast p)) eqn:Hm;
        [exfalso|exact Hm].
      destruct (removelast_snoc p Hp) as [a Ha].
      assert (Re.starts_with p (((c :: u) ++ removelast p) ++ [a] ++ rest)
              = true) as Hm' by apply starts_with_extend, Hm.
      rewrite <- app_assoc, (app_assoc (removelast p)), <- Ha in Hm'.
      cbn [app] in Hm'. congruence.
  - intros t IH. rewrite scan_match by exact Hp.
    apply (Re.replaces_first p r [] t); [|exact IH].
    by apply occurs_removelast.
Qed.

Lemma sub_literal_replaces_all p r s out :
  p <> [] ->
  Re.replaces_all p r s out <-> out = Re.sub_literal p r s.
Proof.
  intros Hp. destruct p as [|a p]; [done|]. cbn [Re.sub_literal]. split.
  - apply replaces_all_scan.
  - intros ->. by apply scan_replaces_all.
Qed.
End ScanSpec.


(** ** Where occurrences can and cannot appear *)

Section Splice.
Context {A : Type} `{EqDecision A}.
Implicit Types p q r s t l u m v : list A.

Lemma suffix_in_suffixes l1 l2 :
  l2 <> [] -> In l2 (Re.suffixes (l1 ++ l2)).
Proof.
  intros Hne. induction l1 as [|c l1 IH]; cbn.
  - destruct l2; [done|]. by left.
  - by right.
Qed.

Lemma inert_inv q r :
  Re.inert q r = true ->
  q <> [] /\ r <> [] /\
  Re.cannot_continue q r = true /\ Re.cannot_begin_in q r = true.
Proof.
  unfold Re.inert. destruct q, r; try discriminate.
  intros [? ?]%andb_true_iff. by repeat split.
Qed.

Lemma cannot_continue_spec q m a2 q' :
  Re.cannot_continue q m = true ->
  q = a2 ++ q' -> a2 <> [] -> q' <> [] ->
  Re.compatible q' m = false.
Proof.
  unfold Re.cannot_continue. rewrite forallb_forall.
  intros Hall -> Ha Hq'. destruct a2 as [|c a2]; [done|]. cbn [app tail] in Hall.
  apply negb_true_iff, Hall. by apply suffix_in_suffixes.
Qed.

(** A match that begins before [m] and reaches it would continue a
    beginning of [q] with [m]. *)
Lemma match_stays_before q a2 m v :
  Re.cannot_continue q m = true -> a2 <> [] ->
  Re.starts_with q (a2 ++ m ++ v) = true ->
  Re.starts_with q a2 = true.
Proof.
  intros Hcc Ha2 Hq.
  destruct (starts_with_split _ _ _ Hq) as [Ha|(q' & Heq & Hne & Hq')];
    [exact Ha|].
  apply starts_with_compatible in Hq'.
  by rewrite (cannot_continue_spec q m a2 q') in Hq'.
Qed.

Lemma cannot_begin_in_spec q m v :
  Re.cannot_begin_in q m = true -> Re.occurs_in q m v = false.
Proof.
  unfold Re.cannot_begin_in. rewrite forallb_forall. intros Hall.
  apply occurs_in_false. intros l1 l2 -> Hne.
  destruct (Re.starts_with q (l2 ++ v)) eqn:Hq; [|done].
  apply starts_with_compatible in Hq.
  specialize (Hall l2 (suffix_in_suffixes l1 l2 Hne)).
  by rewrite Hq in Hall.
Qed.

Lemma contains_matches_spec p m1 m2 v :
  Re.contains_matches p (m1 ++ m2) = true -> m2 <> [] ->
  Re.starts_with p (m2 ++ v) = true ->
  Re.starts_with p m2 = true.
Proof.
  unfold Re.contains_matches. rewrite forallb_forall. intros Hall Hne Hp.
  specialize (Hall m2 (suffix_in_suffixes m1 m2 Hne)).
  apply orb_true_iff in Hall as [Hin|Hout]; [exact Hin|].
  destruct (starts_with_split _ _ _ Hp) as [Hm|(p' & -> & _ & _)];
    [exact Hm|].
  by rewrite starts_with_app in Hout.
Qed.

(** An occurrence that begins in [l] and sees [r] behind [l] does not
    depend on what is behind [l]. *)
Lemma occurs_in_any q r l t y :
  Re.cannot_continue q r = true ->
  Re.occurs_in q l (r ++ t) = true -> Re.occurs_in q l y = true.
Proof.
  intros Hcc. induction l as [|c l IH]; [done|].
  cbn [Re.occurs_in]. intros [Hhere|Hlater]%orb_true_iff.
  - apply match_stays_before in Hhere; [|exact Hcc|done].
    by rewrite (starts_with_extend _ _ y Hhere).
  - rewrite IH by exact Hlater. apply orb_true_r.
Qed.

Lemma snoc_app l (c : A) x : l ++ c :: x = (l ++ [c]) ++ x.
Proof. by rewrite <- app_assoc. Qed.

(** After the scan for [p], no [p] is left: the replacement neither
    holds one nor completes one. *)
Lemma scan_removes p r :
  Re.inert p r = true ->
  forall s l,
    Re.occurs_in p l s = false ->
    Re.occurs p (l ++ Re.sub_go p r 0 s) = false.
Proof.
  intros (Hp & Hr & Hcc & Hcb)%inert_inv.
  apply (scan_ind p (fun s => forall l, Re.occurs_in p l s = false ->
                      Re.occurs p (l ++ Re.sub_go p r 0 s) = false));
    [exact Hp|..].
  - intros l Hl. cbn [Re.sub_go]. rewrite occurs_app by exact Hp.
    rewrite Hl. by rewrite occurs_nil_r.
  - intros c t Hno IH l Hl. rewrite scan_nomatch by exact Hno.
    rewrite snoc_app. apply IH. rewrite occurs_in_app. cbn [app].
    rewrite Hl. cbn [Re.occurs_in app]. by rewrite Hno.
  - intros t IH l Hl. rewrite scan_match by exact Hp.
    rewrite app_assoc. apply IH. rewrite occurs_in_app.
    rewrite (cannot_begin_in_spec _ _ _ Hcb), orb_false_r.
    destruct (Re.occurs_in p l (r ++ t)) eqn:Hin; [|done].
    by rewrite (occurs_in_any p r l t (p ++ t) Hcc Hin) in Hl.
Qed.

(** A scan for [p] whose replacement is inert for [q] does not bring
    [q] into a text without it. *)
Lemma scan_keeps_absent q p r :
  Re.inert q r = true -> p <> [] ->
  forall s l,
    Re.occurs q (l ++ s) = false ->
    Re.occurs q (l ++ Re.sub_go p r 0 s) = false.
Proof.
  intros (Hq & Hr & Hcc & Hcb)%inert_inv Hp.
  apply (scan_ind p (fun s => forall l, Re.occurs q (l ++ s) = false ->
                      Re.occurs q (l ++ Re.sub_go p r 0 s) = false));
    [exact Hp|..].
  - done.
  - intros c t Hno IH l Hl. rewrite scan_nomatch by exact Hno.
    rewrite snoc_app. apply IH. by rewrite <- snoc_app.
  - intros t IH l Hl. rewrite scan_match by exact Hp.
    rewrite app_assoc. apply IH. rewrite <- app_assoc.
    rewrite occurs_app in Hl |- * by exact Hq.
    apply orb_false_iff in Hl as [Hin Hout]. apply orb_false_iff. split.
    + destruct (Re.occurs_in q l (r ++ t)) eqn:Hin'; [|done].
      by rewrite (occurs_in_any q r l t (p ++ t) Hcc Hin') in Hin.
    + rewrite occurs_app by exact Hq.
      rewrite (cannot_begin_in_spec _ _ _ Hcb). cbn.
      destruct (Re.occurs q t) eqn:Ht; [|done].
      by rewrite (occurs_app_r q p t Ht) in Hout.
Qed.

(** The scan of [a ++ b] is the scan of [a] followed by the scan of
    [b] when no match in [a ++ b] begins in [a] and ends in [b]. *)
Lemma scan_app p r b :
  p <> [] ->
  forall a,
    (forall a1 a2, a = a1 ++ a2 -> a2 <> [] ->
                   Re.starts_with p (a2 ++ b) = true ->
                   Re.starts_with p a2 = true) ->
    Re.sub_go p r 0 (a ++ b) = Re.sub_go p r 0 a ++ Re.sub_go p r 0 b.
Proof.
  intros Hp.
  apply (scan_ind p (fun a =>
           (forall a1 a2, a = a1 ++ a2 -> a2 <> [] ->
                          Re.starts_with p (a2 ++ b) = true ->
                          Re.starts_with p a2 = true) ->
           Re.sub_go p r 0 (a ++ b)
           = Re.sub_go p r 0 a ++ Re.sub_go p r 0 b)); [exact Hp|..].
  - done.
  - intros c t Hno IH Hedge.
    assert (Hno' : Re.starts_with p ((c :: t) ++ b) = false).
    { destruct (Re.starts_with p ((c :: t) ++ b)) eqn:Hm; [|done].
      rewrite <- Hno. symmetry. by apply (Hedge [] (c :: t)). }
    cbn [app] in *. rewrite !scan_nomatch by done. cbn [app]. f_equal.
    apply IH. intros a1 a2 -> Hne. by apply (Hedge (c :: a1) a2).
  - intros t IH Hedge. rewrite <- app_assoc, !scan_match by exact Hp.
    rewrite <- app_assoc. f_equal. apply IH.
    intros a1 a2 -> Hne. apply (Hedge (p ++ a1) a2); [|exact Hne].
    by rewrite <- app_assoc.
Qed.
End Splice.


(** ** Rule tables *)

Lemma apply_rule_scan (rule : text * text) (s : text) :
  rule.1 <> [] -> apply_rule s rule = Re.sub_go rule.1 rule.2 0 s.
Proof. destruct rule as [[|a p] r]; [done|reflexivity]. Qed.

Lemma apply_rules_cons (rule : text * text) (rs : list (text * text))
    (s : text) :
  apply_rules (rule :: rs) s = apply_rules rs (apply_rule s rule).
Proof. reflexivity. Qed.

Lemma apply_rules_app (rs1 rs2 : list (text * text)) (s : text) :
  apply_rules (rs1 ++ rs2) s = apply_rules rs2 (apply_rules rs1 s).
Proof. apply fold_left_app. Qed.

(** Rules whose patterns do not occur change nothing. *)
Lemma apply_rules_absent (rs : list (text * text)) (s : text) :
  Forall (fun rule : text * text => Re.occurs rule.1 s = false) rs ->
  apply_rules rs s = s.
Proof.
  induction 1 as [|[p r] rs Hp _ IH]; [reflexivity|].
  rewrite apply_rules_cons. cbn [fst] in Hp.
  assert (Hne : p <> []) by (intros ->; by rewrite occurs_nil_l in Hp).
  unfold apply_rule. cbn [fst snd].
  rewrite sub_literal_absent by done. exact IH.
Qed.

Lemma rules_keep_absent (q : text) (rs : list (text * text)) :
  forallb (fun rule : text * text =>
             negb (bool_decide (rule.1 = [])) && Re.inert q rule.2) rs = true ->
  forall s, Re.occurs q s = false -> Re.occurs q (apply_rules rs s) = false.
Proof.
  induction rs as [|[p r] rs IH]; intros Hall s Hs; [exact Hs|].
  cbn [forallb fst snd] in Hall.
  apply andb_true_iff in Hall as [[Hp Hin]%andb_true_iff Hall].
  apply negb_true_iff, bool_decide_eq_false in Hp.
  rewrite apply_rules_cons. apply IH; [exact Hall|].
  rewrite apply_rule_scan by exact Hp. cbn [fst snd].
  by apply (scan_keeps_absent q p r Hin Hp s []).
Qed.

Lemma removed_by_sound (rs : list (text * text)) (q : text) :
  removed_by rs q = true ->
  forall s, Re.occurs q (apply_rules rs s) = false.
Proof.
  induction rs as [|[p r] rs IH]; [discriminate|].
  cbn [removed_by]. intros [Hhere|Hlater]%orb_true_iff s.
  - apply andb_true_iff in Hhere as [[Hpq Hin]%andb_true_iff Hrest].
    apply bool_decide_eq_true in Hpq as ->.
    rewrite apply_rules_cons. apply rules_keep_absent; [exact Hrest|].
    pose proof (inert_inv _ _ Hin) as (Hq & _).
    rewrite apply_rule_scan by exact Hq. cbn [fst snd].
    by apply (scan_removes q r Hin s []).
  - rewrite apply_rules_cons. by apply IH.
Qed.

Lemma covered_by_absent (qs : list text) (rs : list (text * text)) (s : text) :
  covered_by qs rs = true ->
  Forall (fun q => Re.occurs q s = false) qs ->
  Forall (fun rule : text * text => Re.occurs rule.1 s = false) rs.
Proof.
  unfold covered_by. rewrite forallb_forall, !Forall_forall.
  intros Hcov Hqs rule Hin%list_elem_of_In.
  specialize (Hcov _ Hin). apply andb_true_iff in Hcov as [_ Hex].
  apply existsb_exists in Hex as (q & Hq%list_elem_of_In & Hpre).
  specialize (Hqs _ Hq).
  destruct (Re.occurs rule.1 s) eqn:Ho; [|done].
  by rewrite (occurs_prefix _ _ _ Hpre Ho) in Hqs.
Qed.

(** The table removes each of its three stems for good. *)
Lemma stems_removed : forallb (removed_by rules) stems = true.
Proof. vm_compute. reflexivity. Qed.

Lemma rules_covered : covered_by stems rules = true.
Proof. vm_compute. reflexivity. Qed.

Lemma output_without_patterns (content : text) :
  Forall (fun rule : text * text =>
            Re.occurs rule.1 (apply_rules rules content) = false) rules.
Proof.
  apply (covered_by_absent stems); [apply rules_covered|].
  apply Forall_forall. intros q Hq%list_elem_of_In.
  apply removed_by_sound.
  pose proof stems_removed as Hall. rewrite forallb_forall in Hall.
  by apply Hall.
Qed.

(** A text that holds [m] is rewritten piece by piece when no match
    crosses a border of [m]. *)
Lemma splits_around_sound (rs : list (text * text)) :
  forall m u v : text,
    splits_around rs m = true ->
    apply_rules rs (u ++ m ++ v)
    = apply_rules rs u ++ apply_rules rs m ++ apply_rules rs v.
Proof.
  induction rs as [|[p r] rs IH]; intros m u v Hsp; [reflexivity|].
  cbn [splits_around] in Hsp.
  apply andb_true_iff in Hsp as [[[Hp Hcc]%andb_true_iff Hcm]%andb_true_iff Hsp].
  apply negb_true_iff, bool_decide_eq_false in Hp.
  rewrite !apply_rules_cons. rewrite !apply_rule_scan by exact Hp.
  cbn [fst snd].
  rewrite (scan_app p r (m ++ v) Hp u).
  2:{ intros a1 a2 -> Hne. by apply match_stays_before. }
  rewrite (scan_app p r v Hp m).
  2:{ intros m1 m2 -> Hne. by apply (contains_matches_spec p m1 m2 v). }
  apply IH. destruct p; [done|exact Hsp].
Qed.


(** ** The end of a text *)

Section Ends.
Context {A : Type} `{EqDecision A}.
Implicit Types p q r s t l u m v z : list A.

Lemma occurs_in_suffix q l1 l2 s :
  l2 <> [] -> Re.starts_with q (l2 ++ s) = true ->
  Re.occurs_in q (l1 ++ l2) s = true.
Proof.
  intros Hne Hq. destruct (Re.occurs_in q (l1 ++ l2) s) eqn:Ho; [done|].
  rewrite occurs_in_false in Ho. by rewrite (Ho l1 l2) in Hq.
Qed.

(** A scan whose replacement is inert for [z] cannot make a text end
    with [z]. *)
Lemma scan_keeps_end z p r :
  Re.inert z r = true -> p <> [] ->
  forall s l,
    z `suffix_of` l ++ Re.sub_go p r 0 s -> z `suffix_of` l ++ s.
Proof.
  intros (Hz & Hr & Hcc & Hcb)%inert_inv Hp.
  apply (scan_ind p (fun s => forall l,
           z `suffix_of` l ++ Re.sub_go p r 0 s -> z `suffix_of` l ++ s));
    [exact Hp|..].
  - done.
  - intros c t Hno IH l. rewrite scan_nomatch by exact Hno.
    rewrite (snoc_app l c (Re.sub_go p r 0 t)), (snoc_app l c t). apply IH.
  - intros t IH l. rewrite scan_match by exact Hp.
    rewrite (app_assoc l r). intros [a Ha]%IH.
    symmetry in Ha.
    apply app_eq_inv in Ha as [(k & _ & Ht)|(k & Hlr & Hzk)].
    + exists (l ++ p ++ k). rewrite Ht. by rewrite <- !app_assoc.
    + destruct (decide (k = [])) as [->|Hk].
      { exists (l ++ p). cbn in Hzk. rewrite Hzk. by rewrite <- app_assoc. }
      exfalso.
      assert (Hself : Re.starts_with z (k ++ t) = true).
      { rewrite Hzk. apply starts_with_iff. exists []. by rewrite app_nil_r. }
      symmetry in Hlr.
      apply app_eq_inv in Hlr as [(k' & _ & Hr')|(k' & _ & Hk')].
      * (* [z] begins inside [r] *)
        pose proof (cannot_begin_in_spec z r t Hcb) as Hnone.
        rewrite Hr' in Hnone.
        by rewrite (occurs_in_suffix z k' k t Hk Hself) in Hnone.
      * (* [z] begins at or before the first character of [r] *)
        rewrite Hk', <- app_assoc in Hself.
        destruct (decide (k' = [])) as [->|Hk'ne].
        -- pose proof (cannot_begin_in_spec z r t Hcb) as Hnone.
           pose proof (occurs_in_suffix z [] r t Hr Hself) as Hsome.
           cbn [app] in Hsome. congruence.
        -- apply match_stays_before in Hself; [|exact Hcc|exact Hk'ne].
           apply starts_with_length in Hself.
           rewrite Hzk, Hk', !length_app in Hself.
           destruct r; [done|cbn in Hself; lia].
Qed.

Lemma continuations_spec q m a2 q' :
  q = a2 ++ q' -> a2 <> [] -> q' <> [] ->
  Re.compatible q' m = true ->
  In a2 (Re.continuations q m).
Proof.
  intros -> Ha Hq' Hc. unfold Re.continuations.
  apply in_flat_map. exists (length a2). split.
  - apply in_seq. rewrite length_app.
    destruct a2; [done|]. destruct q'; [done|]. cbn. lia.
  - rewrite drop_app_length, take_app_length, Hc. by left.
Qed.
End Ends.


(** ** [update_content] never leaves the fragment *)

Lemma update_loop_compiled (RS : list (string * string))
    (rs : list (text * text)) :
  Forall2 (fun R r => compile_rule R = Some r) RS rs ->
  forall content, update_loop RS content = Some (apply_rules rs content).
Proof.
  induction 1 as [|[pat rep] [p r] RS rs Hc _ IH]; intros content.
  - reflexivity.
  - cbn [update_loop]. unfold Re.sub.
    unfold compile_rule in Hc. cbn [fst snd] in Hc.
    destruct (Re.compile pat); [|discriminate].
    destruct (Re.template rep); [|discriminate].
    injection Hc as -> ->. apply IH.
Qed.

Lemma rules_compiled :
  Forall2 (fun R r => compile_rule R = Some r) NAMESPACE_REPLACEMENTS rules.
Proof. apply mapM_Some. vm_compute. reflexivity. Qed.

Lemma update_content_eq (content : text) :
  update_content content = Some (apply_rules rules content).
Proof. apply update_loop_compiled, rules_compiled. Qed.

Lemma rules_nonempty : Forall (fun rule : text * text => rule.1 <> []) rules.
Proof. unfold rules. repeat (constructor; [discriminate|]). constructor. Qed.

Lemma applied_update_loop (table : list (string * string))
    (content out : text) :
  applied_in_order table content out -> update_loop table content = Some out.
Proof.
  induction 1 as [content|pat rep p r table content content' out
                   Hp Hr Hrep _ IH]; [reflexivity|].
  cbn [update_loop]. unfold Re.sub. rewrite Hp, Hr.
  apply sub_literal_replaces_all in Hrep as <-; [exact IH|].
  eapply replaces_all_nonempty, Hrep.
Qed.

Lemma update_loop_applied (table : list (string * string))
    (rs : list (text * text)) :
  Forall2 (fun R r => compile_rule R = Some r) table rs ->
  Forall (fun rule : text * text => rule.1 <> []) rs ->
  forall content, applied_in_order table content (apply_rules rs content).
Proof.
  induction 1 as [|[pat rep] [p r] table rs Hc _ IH]; intros Hne content.
  - constructor.
  - apply Forall_cons in Hne as [Hp Hne]. cbn [fst] in Hp.
    unfold compile_rule in Hc. cbn [fst snd] in Hc.
    destruct (Re.compile pat) as [p'|] eqn:Hpat; [|discriminate].
    destruct (Re.template rep) as [r'|] eqn:Hrep; [|discriminate].
    injection Hc as -> ->.
    apply (applied_rule pat rep p r table content (apply_rule content (p, r)));
      [exact Hpat|exact Hrep| |apply IH, Hne].
    by apply sub_literal_replaces_all.
Qed.


(** Two matches in one text are both replaced, and a rule without a
    match leaves the text alone. *)
Example update_content_replaces_every_match :
  update_content
    (cp "using HartsysDatasetEditor.Contracts; // HartsysDatasetEditor.Contracts.V1")
  = Some (cp "using DatasetStudio.DTO; // DatasetStudio.DTO.V1")
  /\ update_content (cp "no namespace here") = Some (cp "no namespace here").
Proof. split; vm_compute; reflexivity. Qed.

(** Every pattern begins with [HartsysDatasetEditor], and no replacement
    holds that word or any pattern. *)
Lemma replacements_without_patterns :
  forallb (fun rule : text * text =>
             Re.starts_with (cp "HartsysDatasetEditor") rule.1
             && negb (Re.occurs (cp "HartsysDatasetEditor") rule.2)
             && forallb (fun rule' : text * text =>
                           negb (Re.occurs rule'.1 rule.2)) rules) rules
  = true.
Proof. vm_compute. reflexivity. Qed.

(** C10: [update_content] is idempotent.  Its output holds no occurrence
    of any pattern of the table, so a second application changes nothing.
    Every pattern begins with [HartsysDatasetEditor], and no replacement
    string of the table holds that word or an occurrence of a pattern. *)
Theorem update_content_idempotent (content : text) :
  exists out,
    update_content content = Some out
    /\ update_content out = Some out
    /\ Forall (fun rule : text * text => Re.occurs rule.1 out = false) rules
    /\ Forall (fun rule : text * text =>
                 Re.starts_with (cp "HartsysDatasetEditor") rule.1 = true
                 /\ Re.occurs (cp "HartsysDatasetEditor") rule.2 = false
                 /\ Forall (fun rule' : text * text =>
                              Re.occurs rule'.1 rule.2 = false) rules) rules.
Proof.
  exists (apply_rules rules content).
  pose proof (output_without_patterns content) as Hout.
  split; [apply update_content_eq|]. split; [|split; [exact Hout|]].
  - rewrite update_content_eq. f_equal. by apply apply_rules_absent.
  - pose proof replacements_without_patterns as Hall.
    rewrite forallb_forall in Hall.
    apply Forall_forall. intros rule Hrule%list_elem_of_In.
    specialize (Hall rule Hrule).
    apply andb_true_iff in Hall as [[Hstart Hword]%andb_true_iff Hpats].
    split; [exact Hstart|]. split; [by apply negb_true_iff|].
    rewrite forallb_forall in Hpats.
    apply Forall_forall. intros rule' Hrule'%list_elem_of_In.
    by apply negb_true_iff, Hpats.
Qed.

(** *** Rules that never match *)

Lemma shadowed_are_the_three :
  map fst (take 3 (drop 18 NAMESPACE_REPLACEMENTS)) =
    [ "HartsysDatasetEditor\.Core\.Services\.Layouts";
      "HartsysDatasetEditor\.Core\.Services\.Parsers";
      "HartsysDatasetEditor\.Core\.Services\.Providers" ]
  /\ map pattern_at shadowed =
       [ cp "HartsysDatasetEditor.Core.Services.Layouts";
         cp "HartsysDatasetEditor.Core.Services.Parsers";
         cp "HartsysDatasetEditor.Core.Services.Providers" ]
  /\ pattern_at 17 = cp "HartsysDatasetEditor.Core.Services".
Proof. repeat split; vm_compute; reflexivity. Qed.

Lemma without_shadowed_compiled :
  Forall2 (fun R r => compile_rule R = Some r)
    without_shadowed (take 18 rules ++ drop 21 rules).
Proof. apply mapM_Some. vm_compute. reflexivity. Qed.

(** After the rule for [Core.Services], none of the three longer
    patterns occurs. *)
Lemma shadowed_absent (content : text) :
  Forall (fun rule : text * text =>
            Re.occurs rule.1 (apply_rules (take 18 rules) content) = false)
         (take 3 (drop 18 rules)).
Proof.
  assert (Hgone : Re.occurs (pattern_at 17)
                    (apply_rules (take 18 rules) content) = false).
  { apply removed_by_sound. vm_compute. reflexivity. }
  apply Forall_forall. intros rule Hrule.
  destruct (Re.occurs rule.1 _) eqn:Ho; [|done].
  rewrite (occurs_prefix (pattern_at 17) rule.1) in Hgone; [done| |exact Ho].
  assert (Hall : forallb (fun rule : text * text =>
                            Re.starts_with (pattern_at 17) rule.1)
                         (take 3 (drop 18 rules)) = true)
    by (vm_compute; reflexivity).
  rewrite forallb_forall in Hall. apply Hall. by apply list_elem_of_In.
Qed.

Lemma shadowed_no_effect (content : text) (n : nat) :
  apply_rules (take n (take 3 (drop 18 rules)))
    (apply_rules (take 18 rules) content)
  = apply_rules (take 18 rules) content.
Proof.
  apply apply_rules_absent, Forall_take, shadowed_absent.
Qed.

(** C9: whatever the input, none of the patterns for
    [Core.Services.Layouts], [Core.Services.Parsers] and
    [Core.Services.Providers] occurs in the text its rule receives;
    [update_content] equals the loop over the table without these three
    rules; and an occurrence of [HartsysDatasetEditor.Core.Services.Providers]
    becomes [DatasetStudio.Core.BusinessLogic.Providers] in its place,
    with the text before and after it rewritten on its own. *)
Theorem shadowed_rules_never_match (content : text) :
  Forall (fun k => Re.occurs (pattern_at k)
                     (apply_rules (take k rules) content) = false) shadowed
  /\ update_content content = update_loop without_shadowed content
  /\ forall u v : text,
       exists u' v',
         update_content u = Some u' /\ update_content v = Some v' /\
         update_content (u ++ services_providers ++ v)
         = Some (u' ++ business_logic_providers ++ v').
Proof.
  split; [|split].
  - pose proof (shadowed_absent content) as Habs.
    change (take 3 (drop 18 rules))
      with [default ([], []) (rules !! 18); default ([], []) (rules !! 19);
            default ([], []) (rules !! 20)] in Habs.
    apply Forall_cons in Habs as [H18 Habs].
    apply Forall_cons in Habs as [H19 Habs].
    apply Forall_cons in Habs as [H20 _].
    unfold shadowed. repeat apply Forall_cons_2; [| | |constructor].
    + exact H18.
    + change (take 19 rules)
        with (take 18 rules ++ take 1 (take 3 (drop 18 rules))).
      rewrite apply_rules_app, shadowed_no_effect. exact H19.
    + change (take 20 rules)
        with (take 18 rules ++ take 2 (take 3 (drop 18 rules))).
      rewrite apply_rules_app, shadowed_no_effect. exact H20.
  - rewrite update_content_eq.
    rewrite (update_loop_compiled _ _ without_shadowed_compiled). f_equal.
    change rules
      with (take 18 rules ++ take 3 (take 3 (drop 18 rules)) ++ drop 21 rules)
      at 1.
    rewrite !apply_rules_app, shadowed_no_effect. reflexivity.
  - intros u v. exists (apply_rules rules u), (apply_rules rules v).
    rewrite !update_content_eq.
    split; [reflexivity|]. split; [reflexivity|]. f_equal.
    rewrite splits_around_sound by (vm_compute; reflexivity).
    assert (apply_rules rules services_providers = business_logic_providers)
      as -> by (vm_compute; reflexivity).
    reflexivity.
Qed.

(** *** A rule and the shorter rule behind it *)

(** Seventeen of the twenty rules with a shorter rule behind them replace
    their matches in place whatever stands around them.  The three
    others: [Client.Pages] (below), [Client.Services], whose match is
    taken by an earlier, longer rule when [.Api], [.JsInterop] or
    [.StateManagement] follows, and [Core.Services.Providers], which
    never matches. *)
Lemma narrowed_rules_in_place :
  map fst (filter in_place (narrowed_rules rules)) =
    map cp
      [ "HartsysDatasetEditor.Client.Components.Dataset";
        "HartsysDatasetEditor.Client.Components.Viewer";
        "HartsysDatasetEditor.Client.Components.Filter";
        "HartsysDatasetEditor.Client.Components.Dialogs";
        "HartsysDatasetEditor.Client.Components.Settings";
        "HartsysDatasetEditor.Client.Components.Common";
        "HartsysDatasetEditor.Client.Layout";
        "HartsysDatasetEditor.Client.Services.Api";
        "HartsysDatasetEditor.Client.Services.JsInterop";
        "HartsysDatasetEditor.Client.Services.StateManagement";
        "HartsysDatasetEditor.Client.Extensions";
        "HartsysDatasetEditor.Core.Models";
        "HartsysDatasetEditor.Core.Enums";
        "HartsysDatasetEditor.Core.Interfaces";
        "HartsysDatasetEditor.Core.Services";
        "HartsysDatasetEditor.Core.Services.Layouts";
        "HartsysDatasetEditor.Core.Services.Parsers" ]
  /\ length (narrowed_rules rules) = 20.
Proof. split; vm_compute; reflexivity. Qed.

Lemma in_place_sound (rule : text * text) (u v : text) :
  in_place rule = true ->
  apply_rules rules (u ++ rule.1 ++ v)
  = apply_rules rules u ++ rule.2 ++ apply_rules rules v.
Proof.
  unfold in_place. intros [Hsp Heq%bool_decide_eq_true]%andb_true_iff.
  rewrite splits_around_sound by exact Hsp. by rewrite Heq.
Qed.

Lemma pages_first_rule (u v : text) :
  apply_rules (take 1 rules) (u ++ client_pages ++ v)
  = apply_rules (take 1 rules) u ++ features_pages
    ++ apply_rules (take 1 rules) v.
Proof.
  rewrite splits_around_sound by (vm_compute; reflexivity).
  assert (apply_rules (take 1 rules) client_pages = features_pages) as ->
    by (vm_compute; reflexivity).
  reflexivity.
Qed.

Lemma pages_first_rule_end (u : text) :
  ~ components_dot `suffix_of` u ->
  ~ components_dot `suffix_of` apply_rules (take 1 rules) u.
Proof.
  intros Hu Hend. apply Hu.
  assert (Hin : Re.inert components_dot features_pages = true)
    by (vm_compute; reflexivity).
  assert (Hp : client_pages <> []) by discriminate.
  apply (scan_keeps_end components_dot client_pages features_pages Hin Hp u []).
  exact Hend.
Qed.

Lemma pages_second_rule (u v : text) :
  ~ components_dot `suffix_of` u ->
  apply_rules (take 1 (drop 1 rules)) (u ++ features_pages ++ v)
  = apply_rules (take 1 (drop 1 rules)) u ++ features_pages
    ++ apply_rules (take 1 (drop 1 rules)) v.
Proof.
  intros Hu.
  change (take 1 (drop 1 rules))
    with [(pattern_at 1, (default ([], []) (rules !! 1)).2)].
  set (r := (default ([], []) (rules !! 1)).2).
  assert (Hp : pattern_at 1 <> []) by discriminate.
  unfold apply_rules. cbn [fold_left]. rewrite !apply_rule_scan by exact Hp.
  cbn [fst snd].
  rewrite (scan_app (pattern_at 1) r (features_pages ++ v) Hp u).
  2:{ intros a1 a2 -> Hne Hm.
      destruct (starts_with_split _ _ _ Hm) as [Ha|(p' & Heq & Hp' & Hm')];
        [exact Ha|].
      exfalso. apply Hu. exists a1. f_equal.
      apply starts_with_compatible in Hm'.
      pose proof (continuations_spec _ _ _ _ Heq Hne Hp' Hm') as Hin.
      assert (Re.continuations (pattern_at 1) features_pages
              = [components_dot]) as Hc by (vm_compute; reflexivity).
      rewrite Hc in Hin. destruct Hin as [<-|[]]. reflexivity. }
  rewrite (scan_app (pattern_at 1) r v Hp features_pages).
  2:{ intros m1 m2 Hm Hne.
      apply (contains_matches_spec (pattern_at 1) m1 m2 v); [|exact Hne].
      rewrite <- Hm. vm_compute. reflexivity. }
  assert (Re.sub_go (pattern_at 1) r 0 features_pages = features_pages) as ->
    by (vm_compute; reflexivity).
  reflexivity.
Qed.

Lemma pages_in_place (u v : text) :
  ~ components_dot `suffix_of` u ->
  apply_rules rules (u ++ client_pages ++ v)
  = apply_rules rules u ++ features_pages ++ apply_rules rules v.
Proof.
  intros Hu.
  change rules with (take 1 rules ++ take 1 (drop 1 rules) ++ drop 2 rules).
  rewrite !apply_rules_app.
  rewrite pages_first_rule.
  rewrite pages_second_rule by apply pages_first_rule_end, Hu.
  apply splits_around_sound. vm_compute. reflexivity.
Qed.

(** *** The beginning of a text *)

Section Starts.
Context {A : Type} `{EqDecision A}.
Implicit Types p q r s t l u : list A.

Lemma starts_with_app_same p q s :
  Re.starts_with (p ++ q) (p ++ s) = Re.starts_with q s.
Proof.
  induction p as [|a p IH]; [reflexivity|]. cbn.
  by rewrite bool_decide_eq_true_2.
Qed.

Lemma scan_keeps_start p r :
  p <> [] ->
  forall s q,
    forallb (fun q' => negb (Re.compatible q' r)) (Re.suffixes q) = true ->
    Re.starts_with q (Re.sub_go p r 0 s) = true ->
    Re.starts_with q s = true.
Proof.
  intros Hp. induction s as [|c t IH]; intros q Hq; [done|].
  destruct q as [|a q]; [done|].
  cbn [Re.suffixes forallb] in Hq.
  apply andb_true_iff in Hq as [Hhere%negb_true_iff Hrest].
  destruct (Re.starts_with p (c :: t)) eqn:Hm.
  - cbn [Re.sub_go]. rewrite Hm. intros Hout.
    apply starts_with_compatible in Hout. congruence.
  - rewrite scan_nomatch by exact Hm. cbn [Re.starts_with].
    intros [Hac Hout]%andb_true_iff. rewrite Hac. cbn [andb].
    by apply IH.
Qed.

(** A pattern that goes on behind [m] finds no match in [u ++ m ++ v]
    that touches [m], unless [v] supplies what follows [m] in it. *)
Lemma scan_around_stem p r m u v :
  p <> [] ->
  Re.cannot_continue p m = true ->
  forallb (fun m' => negb (Re.compatible p m')) (Re.suffixes (tail m)) = true ->
  Re.occurs p m = false ->
  Re.starts_with p (m ++ v) = false ->
  Re.sub_go p r 0 (u ++ m ++ v)
  = Re.sub_go p r 0 u ++ m ++ Re.sub_go p r 0 v.
Proof.
  intros Hp Hcc Hin Hocc Hv.
  rewrite (scan_app p r (m ++ v) Hp u).
  2:{ intros a1 a2 -> Hne. by apply match_stays_before. }
  rewrite (scan_app p r v Hp m).
  2:{ intros m1 m2 -> Hne Hm. destruct m1 as [|c m1].
      - cbn [app] in Hv. congruence.
      - cbn [app tail] in Hin. rewrite forallb_forall in Hin.
        specialize (Hin m2 (suffix_in_suffixes m1 m2 Hne)).
        apply negb_true_iff in Hin.
        apply starts_with_compatible in Hm. congruence. }
  by rewrite (scan_absent p r m Hocc).
Qed.
End Starts.

Lemma rules_keep_start (q : text) (rs : list (text * text)) :
  keeps_start q rs = true ->
  forall s, Re.starts_with q (apply_rules rs s) = true ->
            Re.starts_with q s = true.
Proof.
  unfold keeps_start.
  induction rs as [|[p r] rs IH]; intros Hall s Hs; [exact Hs|].
  cbn [forallb fst snd] in Hall.
  apply andb_true_iff in Hall as [[Hp Hq]%andb_true_iff Hall].
  apply negb_true_iff, bool_decide_eq_false in Hp.
  rewrite apply_rules_cons in Hs. apply IH in Hs; [|exact Hall].
  rewrite apply_rule_scan in Hs by exact Hp. cbn [fst snd] in Hs.
  by apply (scan_keeps_start p r Hp s q).
Qed.

(** One more rule, for a name that goes on behind [m]. *)
Lemma stem_step (rs : list (text * text)) (r m ext u v : text) :
  m ++ ext <> [] ->
  Re.cannot_continue (m ++ ext) m = true ->
  forallb (fun m' => negb (Re.compatible (m ++ ext) m'))
          (Re.suffixes (tail m)) = true ->
  Re.occurs (m ++ ext) m = false ->
  keeps_start ext rs = true ->
  Re.starts_with ext v = false ->
  apply_rules rs (u ++ m ++ v)
    = apply_rules rs u ++ m ++ apply_rules rs v ->
  apply_rules (rs ++ [(m ++ ext, r)]) (u ++ m ++ v)
    = apply_rules (rs ++ [(m ++ ext, r)]) u ++ m
      ++ apply_rules (rs ++ [(m ++ ext, r)]) v.
Proof.
  intros Hp Hcc Hin Hocc Hkeep Hv Hrs.
  rewrite !apply_rules_app, Hrs.
  change (apply_rules [(m ++ ext, r)])
    with (fun s => apply_rule s (m ++ ext, r)). cbv beta.
  rewrite !apply_rule_scan by exact Hp. cbn [fst snd].
  apply scan_around_stem; try done.
  rewrite starts_with_app_same.
  destruct (Re.starts_with ext (apply_rules rs v)) eqn:Hs; [|done].
  apply (rules_keep_start ext rs Hkeep) in Hs. congruence.
Qed.

Lemma services_in_place (u v : text) :
  Forall (fun ext => Re.starts_with ext v = false) services_extensions ->
  apply_rules rules (u ++ client_services ++ v)
  = apply_rules rules u ++ datasets_services ++ apply_rules rules v.
Proof.
  intros Hv. unfold services_extensions in Hv. cbn [map] in Hv.
  apply Forall_cons in Hv as [Hapi Hv].
  apply Forall_cons in Hv as [Hjs Hv].
  apply Forall_cons in Hv as [Hsm _].
  assert (H8 : apply_rules (take 8 rules) (u ++ client_services ++ v)
               = apply_rules (take 8 rules) u ++ client_services
                 ++ apply_rules (take 8 rules) v).
  { rewrite splits_around_sound by (vm_compute; reflexivity).
    assert (apply_rules (take 8 rules) client_services = client_services)
      as -> by (vm_compute; reflexivity).
    reflexivity. }
  assert (H9 : apply_rules (take 9 rules) (u ++ client_services ++ v)
               = apply_rules (take 9 rules) u ++ client_services
                 ++ apply_rules (take 9 rules) v).
  { change (take 9 rules)
      with (take 8 rules
            ++ [(client_services ++ cp ".Api",
                 (default ([], []) (rules !! 8)).2)]).
    apply stem_step; try exact H8; try exact Hapi;
      first [discriminate|vm_compute; reflexivity]. }
  assert (H10 : apply_rules (take 10 rules) (u ++ client_services ++ v)
                = apply_rules (take 10 rules) u ++ client_services
                  ++ apply_rules (take 10 rules) v).
  { change (take 10 rules)
      with (take 9 rules
            ++ [(client_services ++ cp ".JsInterop",
                 (default ([], []) (rules !! 9)).2)]).
    apply stem_step; try exact H9; try exact Hjs;
      first [discriminate|vm_compute; reflexivity]. }
  assert (H11 : apply_rules (take 11 rules) (u ++ client_services ++ v)
                = apply_rules (take 11 rules) u ++ client_services
                  ++ apply_rules (take 11 rules) v).
  { change (take 11 rules)
      with (take 10 rules
            ++ [(client_services ++ cp ".StateManagement",
                 (default ([], []) (rules !! 10)).2)]).
    apply stem_step; try exact H10; try exact Hsm;
      first [discriminate|vm_compute; reflexivity]. }
  change rules with (take 11 rules ++ drop 11 rules).
  rewrite !apply_rules_app, H11.
  rewrite splits_around_sound by (vm_compute; reflexivity).
  assert (apply_rules (drop 11 rules) client_services = datasets_services)
    as -> by (vm_compute; reflexivity).
  reflexivity.
Qed.

(** C5 (as amended): a rule with a shorter rule behind it replaces its
    matches in place, the text before and after the match being
    rewritten on its own, so that the later rule has no effect on it:
    - for [HartsysDatasetEditor.Client.Pages], when the match is not
      directly preceded by [HartsysDatasetEditor.Client.Components.];
    - for [HartsysDatasetEditor.Client.Services], when the match is not
      directly followed by [.Api], [.JsInterop] or [.StateManagement];
    - for the seventeen rules listed in [narrowed_rules_in_place],
      whatever stands before and after the match. *)
Theorem earlier_rule_wins :
  (forall u v, ~ components_dot `suffix_of` u ->
               replaced_in_place client_pages features_pages u v)
  /\ (forall u v,
        Forall (fun ext => Re.starts_with ext v = false) services_extensions ->
        replaced_in_place client_services datasets_services u v)
  /\ Forall (fun rule : text * text =>
               forall u v, replaced_in_place rule.1 rule.2 u v)
            (filter in_place (narrowed_rules rules)).
Proof.
  split; [|split].
  - intros u v Hu. exists (apply_rules rules u), (apply_rules rules v).
    rewrite !update_content_eq. repeat split. f_equal.
    by apply pages_in_place.
  - intros u v Hv. exists (apply_rules rules u), (apply_rules rules v).
    rewrite !update_content_eq. repeat split. f_equal.
    by apply services_in_place.
  - apply Forall_forall. intros rule [Hin _]%list_elem_of_filter u v.
    exists (apply_rules rules u), (apply_rules rules v).
    rewrite !update_content_eq. repeat split. f_equal.
    apply in_place_sound. by destruct (in_place rule).
Qed.

Lemma earlier_rule_wins_witness :
  replaced_in_place client_pages features_pages (cp "using ") (cp ";")
  /\ replaced_in_place client_services datasets_services
       (cp "using ") (cp ";").
Proof.
  split.
  - apply (proj1 earlier_rule_wins (cp "using ") (cp ";")).
    intros Hs. apply suffix_length in Hs. vm_compute in Hs. lia.
  - apply (proj1 (proj2 earlier_rule_wins) (cp "using ") (cp ";")).
    repeat constructor.
Defined.

(** C5 (as stated) fails: behind [HartsysDatasetEditor.Client.Components.]
    the replacement of [HartsysDatasetEditor.Client.Pages] completes the
    pattern of the second rule and is rewritten again; the output does
    not hold [DatasetStudio.ClientApp.Features.Datasets.Pages] at all. *)
Lemma pages_replacement_rewritten_again :
  let input := components_dot ++ client_pages in
  Re.occurs client_pages input = true
  /\ update_content input =
       Some (cp "DatasetStudio.ClientApp.Features.Datasets.ComponentsStudio.ClientApp.Features.Datasets.Pages")
  /\ (forall out, update_content input = Some out ->
                  Re.occurs features_pages out = false)
  /\ ~ (exists u' v',
          update_content input = Some (u' ++ features_pages ++ v')).
Proof.
  assert (Hrun : update_content (components_dot ++ client_pages) =
                 Some (cp "DatasetStudio.ClientApp.Features.Datasets.ComponentsStudio.ClientApp.Features.Datasets.Pages"))
    by (vm_compute; reflexivity).
  cbv zeta. split; [vm_compute; reflexivity|]. split; [exact Hrun|].
  assert (Hnone : forall out,
             update_content (components_dot ++ client_pages) = Some out ->
             Re.occurs features_pages out = false).
  { intros out. rewrite Hrun. intros [= <-]. vm_compute. reflexivity. }
  split; [exact Hnone|].
  intros (u' & v' & Hout). specialize (Hnone _ Hout).
  rewrite (occurs_app_r features_pages u' _ 
             (occurs_app_l features_pages features_pages v'
                (occurs_here _ _ (starts_with_app features_pages [])))) in Hnone.
  discriminate.
Qed.

(** Behind a match of [HartsysDatasetEditor.Client.Services] the name
    can go on: then an earlier, longer rule takes the match, and the
    replacement of [Client.Services] does not appear. *)
Example services_api_taken_first :
  update_content (client_services ++ cp ".Api")
    = Some (cp "DatasetStudio.ClientApp.Services.ApiClients")
  /\ Re.occurs datasets_services
       (cp "DatasetStudio.ClientApp.Services.ApiClients") = false.
Proof. split; vm_compute; reflexivity. Qed.

(** The rule for [HartsysDatasetEditor.Core.Services.Providers] never
    replaces anything: the rule for [Core.Services] before it has taken
    the match, and the replacement that stands there is not its own. *)
Example providers_not_in_place :
  update_content services_providers = Some business_logic_providers
  /\ business_logic_providers <> business_logic_modality.
Proof. split; [vm_compute; reflexivity|discriminate]. Qed.

(** ** Making directories *)

Lemma ensure_dir_keeps (m : gmap string node) (d p : string) (n : node) :
  m !! p = Some n -> ensure_dir m d !! p = Some n.
Proof.
  intros Hp. unfold ensure_dir.
  destruct (m !! d) eqn:Hd; [exact Hp|].
  rewrite lookup_insert_ne; [exact Hp|]. congruence.
Qed.

Lemma ensure_dirs_keep (ds : list string) (m : gmap string node)
    (p : string) (n : node) :
  m !! p = Some n -> foldl ensure_dir m ds !! p = Some n.
Proof.
  revert m. induction ds as [|d ds IH]; intros m Hp; [exact Hp|].
  cbn [foldl]. apply IH, ensure_dir_keeps, Hp.
Qed.

Lemma ensure_dirs_lookup (ks : list string) (m : gmap string node)
    (k : string) :
  foldl ensure_dir m ks !! k =
    match m !! k with
    | Some n => Some n
    | None => if bool_decide (k ∈ ks) then Some Dir else None
    end.
Proof.
  revert m. induction ks as [|d ks IH]; intros m; cbn [foldl].
  - rewrite bool_decide_eq_false_2 by apply not_elem_of_nil.
    by destruct (m !! k).
  - rewrite IH. unfold ensure_dir.
    destruct (m !! d) eqn:Hd.
    + destruct (m !! k) eqn:Hk; [done|].
      assert (k <> d) by congruence.
      destruct (decide (k ∈ ks)) as [Hin|Hin].
      * rewrite !bool_decide_eq_true_2; [done|by right|done].
      * rewrite !bool_decide_eq_false_2; [done| |done].
        by intros [?|?]%elem_of_cons.
    + destruct (decide (k = d)) as [->|Hne].
      * rewrite lookup_insert_eq, Hd.
        rewrite (bool_decide_eq_true_2 (d ∈ d :: ks)); [done|by left].
      * rewrite lookup_insert_ne by done.
        destruct (m !! k); [done|].
        destruct (decide (k ∈ ks)) as [Hin|Hin].
        -- rewrite !bool_decide_eq_true_2; [done|by right|done].
        -- rewrite !bool_decide_eq_false_2; [done| |done].
           by intros [?|?]%elem_of_cons.
Qed.

(** The order in which missing directories are made does not show in
    the file tree. *)
Lemma ensure_dirs_rev (ds : list string) (m : gmap string node) :
  foldl ensure_dir m (rev ds) = foldl ensure_dir m ds.
Proof.
  apply map_eq. intros k. rewrite !ensure_dirs_lookup.
  destruct (m !! k); [done|].
  destruct (decide (k ∈ ds)) as [Hin|Hin].
  - rewrite !bool_decide_eq_true_2; [done..|].
    by apply list_elem_of_In, in_rev, list_elem_of_In in Hin.
  - rewrite !bool_decide_eq_false_2; [done..|].
    intros Hr. apply Hin. by apply list_elem_of_In, in_rev, list_elem_of_In.
Qed.

Lemma existsb_rev {X} (f : X -> bool) (l : list X) :
  existsb f (rev l) = existsb f l.
Proof.
  induction l as [|x l IH]; [done|]. cbn [rev existsb].
  rewrite existsb_app, IH. cbn [existsb]. by destruct (f x), (existsb f l).
Qed.

Lemma grown_refl (m : gmap string node) (ds : list string) : grown m m ds.
Proof. intros k. by left. Qed.

Lemma grown_keeps (m m' : gmap string node) (ds : list string)
    (p : string) (n : node) :
  grown m m' ds -> m !! p = Some n -> m' !! p = Some n.
Proof.
  intros Hg Hp. destruct (Hg p) as [->|[Hnone _]]; [exact Hp|congruence].
Qed.

Lemma grown_files (m m' : gmap string node) (ds : list string)
    (k : string) (content : text) :
  grown m m' ds ->
  m' !! k = Some (File content) <-> m !! k = Some (File content).
Proof.
  intros Hg. destruct (Hg k) as [->|(Hnone & Hdir & _)]; [done|].
  rewrite Hnone, Hdir. split; discriminate.
Qed.

Lemma ensure_dirs_grown (ds : list string) (m : gmap string node) :
  grown m (foldl ensure_dir m ds) ds.
Proof.
  intros k. rewrite ensure_dirs_lookup. destruct (m !! k); [by left|].
  case_bool_decide; [right|left]; done.
Qed.

Section Makedirs.
Variable dirname : string -> string.
Variable os : faults.

Lemma blocked_after_mkdir (m : gmap string node) (d d' : string) :
  m !! d = None -> mkdir_err os d = None ->
  blocked os (<[d := Dir]> m) d' = blocked os m d'.
Proof.
  intros Hd Herr. unfold blocked. destruct (decide (d' = d)) as [->|Hne].
  - rewrite lookup_insert_eq, Hd, Herr.
    by rewrite bool_decide_eq_false_2 by (intros [? ?]; discriminate).
  - by rewrite lookup_insert_ne.
Qed.

Lemma blocked_after_mkdirs (m : gmap string node) (d : string)
    (ds : list string) :
  m !! d = None -> mkdir_err os d = None ->
  existsb (blocked os (<[d := Dir]> m)) ds = existsb (blocked os m) ds.
Proof.
  intros Hd Herr. induction ds as [|d' ds IH]; [done|]. cbn [existsb].
  by rewrite IH, blocked_after_mkdir.
Qed.

(** Nothing in the way: every directory of the list is there
    afterwards. *)
Lemma makedirs_down_returns (ds : list string) :
  forall (m : gmap string node) (lines : list string),
    existsb (blocked os m) ds = false ->
    makedirs_down os ds (World m lines)
    = (Returned (), World (foldl ensure_dir m ds) lines).
Proof.
  induction ds as [|d ds IH]; intros m lines Hfree; [reflexivity|].
  cbn [existsb] in Hfree. apply orb_false_iff in Hfree as [Hd Hds].
  cbn [makedirs_down foldl fs console]. unfold ensure_dir.
  unfold blocked in Hd.
  destruct (m !! d) as [[content|]|] eqn:Hlook; [discriminate|by apply IH|].
  apply bool_decide_eq_false in Hd.
  destruct (mkdir_err os d) as [e|] eqn:Herr; [exfalso; apply Hd; eauto|].
  apply IH. by rewrite blocked_after_mkdirs.
Qed.

(** Something in the way: the exception leaves behind the directories
    made on the way to it. *)
Lemma makedirs_down_raises (ds : list string) :
  forall (m : gmap string node) (lines : list string),
    existsb (blocked os m) ds = true ->
    exists e m',
      makedirs_down os ds (World m lines) = (Raised e, World m' lines)
      /\ grown m m' (removelast ds).
Proof.
  induction ds as [|d ds IH]; intros m lines Hblocked; [discriminate|].
  cbn [existsb] in Hblocked. cbn [makedirs_down fs console].
  unfold blocked in Hblocked at 1.
  destruct (m !! d) as [[content|]|] eqn:Hlook.
  - eexists _, m. split; [reflexivity|apply grown_refl].
  - cbn [orb] in Hblocked.
    destruct (IH m lines Hblocked) as (e & m' & Hrun & Hg).
    exists e, m'. split; [exact Hrun|].
    destruct ds as [|d1 ds]; [discriminate|].
    intros k. destruct (Hg k) as [Hk|(Hn & Hd & Hin)]; [by left|].
    right. repeat split; [done..|]. by right.
  - destruct (mkdir_err os d) as [e|] eqn:Herr.
    + eexists _, m. split; [reflexivity|apply grown_refl].
    + rewrite bool_decide_eq_false_2 in Hblocked
        by (intros [? ?]; discriminate).
      cbn [orb] in Hblocked.
      rewrite <- (blocked_after_mkdirs m d ds Hlook Herr) in Hblocked.
      destruct (IH _ lines Hblocked) as (e & m' & Hrun & Hg).
      exists e, m'. split; [exact Hrun|].
      destruct ds as [|d1 ds]; [discriminate|].
      intros k. change (removelast (d :: d1 :: ds))
                  with (d :: removelast (d1 :: ds)).
      destruct (decide (k = d)) as [->|Hne].
      * destruct (Hg d) as [Hk|(Hn & _)].
        -- right. rewrite Hk, lookup_insert_eq.
           repeat split; [done|by left].
        -- by rewrite lookup_insert_eq in Hn.
      * destruct (Hg k) as [Hk|(Hn & Hd & Hin)].
        -- left. by rewrite Hk, lookup_insert_ne.
        -- right. rewrite lookup_insert_ne in Hn by done.
           repeat split; [done..|]. by right.
Qed.

(** [os.makedirs] returns exactly when nothing blocks [d] or a directory
    above it; then they are all there. *)
Lemma makedirs_returns (d : string) (w : world) :
  existsb (blocked os (fs w)) (d :: parents dirname d) = false ->
  makedirs dirname os d w
  = (Returned (),
     World (foldl ensure_dir (fs w) (d :: parents dirname d)) (console w)).
Proof.
  intros Hfree. unfold makedirs. destruct w as [m lines]. cbn [fs console] in *.
  rewrite makedirs_down_returns by (by rewrite existsb_rev).
  by rewrite ensure_dirs_rev.
Qed.

(** Otherwise it raises, and what it has made by then are directories
    above [d]. *)
Lemma makedirs_raises (d : string) (w : world) :
  existsb (blocked os (fs w)) (d :: parents dirname d) = true ->
  exists e m',
    makedirs dirname os d w = (Raised e, World m' (console w))
    /\ grown (fs w) m' (parents dirname d).
Proof.
  intros Hblocked. unfold makedirs. destruct w as [m lines].
  cbn [fs console] in *.
  destruct (makedirs_down_raises (rev (d :: parents dirname d)) m lines)
    as (e & m' & Hrun & Hg); [by rewrite existsb_rev|].
  exists e, m'. split; [exact Hrun|].
  cbn [rev] in Hg. rewrite removelast_last in Hg.
  intros k. destruct (Hg k) as [Hk|(Hn & Hd & Hin)]; [by left|].
  right. repeat split; [done..|].
  by apply list_elem_of_In, in_rev, list_elem_of_In in Hin.
Qed.

(** Whatever the outcome, [os.makedirs] prints nothing and only adds
    directories. *)
Lemma makedirs_grown (d : string) (w : world) :
  console (makedirs dirname os d w).2 = console w
  /\ grown (fs w) (fs (makedirs dirname os d w).2) (d :: parents dirname d).
Proof.
  destruct (existsb (blocked os (fs w)) (d :: parents dirname d)) eqn:Hb.
  - destruct (makedirs_raises d w Hb) as (e & m' & -> & Hg).
    cbn [snd fs console]. split; [done|].
    intros k. destruct (Hg k) as [Hk|(Hn & Hd & Hin)]; [by left|].
    right. repeat split; [done..|]. by right.
  - rewrite (makedirs_returns d w Hb). cbn [snd fs console].
    split; [done|]. apply ensure_dirs_grown.
Qed.

Lemma makedirs_keeps (d : string) (w : world) (p : string) (n : node) :
  fs w !! p = Some n -> fs (makedirs dirname os d w).2 !! p = Some n.
Proof.
  intros Hp. destruct (makedirs_grown d w) as [_ Hg].
  by apply (grown_keeps _ _ _ _ _ Hg).
Qed.

Lemma makedirs_returned (d : string) (w w1 : world) :
  makedirs dirname os d w = (Returned (), w1) ->
  console w1 = console w
  /\ fs w1 = foldl ensure_dir (fs w) (d :: parents dirname d)
  /\ existsb (blocked os (fs w)) (d :: parents dirname d) = false.
Proof.
  intros Hrun.
  destruct (existsb (blocked os (fs w)) (d :: parents dirname d)) eqn:Hb.
  - destruct (makedirs_raises d w Hb) as (e & m' & Hr & _). congruence.
  - rewrite (makedirs_returns d w Hb) in Hrun. by injection Hrun as <-.
Qed.
End Makedirs.

(** ** Line ends *)

Lemma read_newlines_no_cr (s : text) :
  Forall (fun c => c <> CR) (read_newlines s).
Proof.
  induction s as [s IH] using (induction_ltof1 _ (@length N)).
  unfold ltof in IH. destruct s as [|c rest]; [constructor|].
  cbn [read_newlines]. destruct (c =? CR)%N eqn:Hc.
  - constructor; [discriminate|].
    destruct rest as [|d rest']; [constructor|].
    destruct (d =? LF)%N; apply IH; cbn; lia.
  - apply N.eqb_neq in Hc. constructor; [exact Hc|]. apply IH. cbn. lia.
Qed.

(** Reading back what was written gives the text that was written,
    unless it holds a CR. *)
Lemma newlines_round_trip (sep : line_separator) (s : text) :
  Forall (fun c => c <> CR) s ->
  read_newlines (write_newlines sep s) = s.
Proof.
  induction 1 as [|c s Hc _ IH]; [reflexivity|].
  unfold write_newlines in *. cbn [flat_map].
  destruct (c =? LF)%N eqn:Hlf.
  - apply N.eqb_eq in Hlf as ->.
    destruct sep; cbn [linesep_text app read_newlines] in IH |- *.
    + change (LF =? CR)%N with false. cbv iota. by rewrite IH.
    + rewrite !N.eqb_refl. by rewrite IH.
  - cbn [app read_newlines].
    rewrite (proj2 (N.eqb_neq c CR) Hc). by rewrite IH.
Qed.

Lemma scan_forall {A} `{EqDecision A} (P : A -> Prop) (p r : list A) :
  Forall P r ->
  forall s k, Forall P s -> Forall P (Re.sub_go p r k s).
Proof.
  intros Hr. induction s as [|c t IH]; intros k Hs; [constructor|].
  apply Forall_cons in Hs as [Hc Ht]. cbn [Re.sub_go].
  destruct k as [|k]; [|by apply IH].
  destruct (Re.starts_with p (c :: t)).
  - apply Forall_app. split; [exact Hr|by apply IH].
  - constructor; [exact Hc|by apply IH].
Qed.

Lemma apply_rules_forall (P : N -> Prop) (rs : list (text * text)) :
  Forall (fun rule : text * text => rule.1 <> [] /\ Forall P rule.2) rs ->
  forall s, Forall P s -> Forall P (apply_rules rs s).
Proof.
  induction 1 as [|[p r] rs [Hp Hr] _ IH]; intros s Hs; [exact Hs|].
  rewrite apply_rules_cons. apply IH.
  rewrite apply_rule_scan by exact Hp. by apply scan_forall.
Qed.

Lemma rules_without_cr :
  Forall (fun rule : text * text =>
            rule.1 <> [] /\ Forall (fun c => c <> CR) rule.2) rules.
Proof.
  assert (Hall : forallb (fun rule : text * text =>
                            negb (bool_decide (rule.1 = []))
                            && forallb (fun c => negb (c =? CR)%N) rule.2)
                         rules = true) by (vm_compute; reflexivity).
  rewrite forallb_forall in Hall. apply Forall_forall.
  intros rule Hin%list_elem_of_In. specialize (Hall _ Hin).
  apply andb_true_iff in Hall as [Hp%negb_true_iff%bool_decide_eq_false Hr].
  split; [exact Hp|]. rewrite forallb_forall in Hr. apply Forall_forall.
  intros c Hc%list_elem_of_In. by apply N.eqb_neq, negb_true_iff, Hr.
Qed.

(** What [update_content] makes of a text read from a file comes back
    unchanged when it is written and read again. *)
Lemma updated_round_trip (sep : line_separator) (stored : text) :
  read_newlines
    (write_newlines sep (apply_rules rules (read_newlines stored)))
  = apply_rules rules (read_newlines stored).
Proof.
  apply newlines_round_trip, (apply_rules_forall _ _ rules_without_cr),
    read_newlines_no_cr.
Qed.

(** ** One file *)

Section MigrateFile.
Variable join : string -> string -> string.
Variable dirname : string -> string.
Variable os : faults.

Lemma migrate_file_skip (src_rel dest_rel : string) (w : world) :
  fs w !! join SRC_BASE src_rel = None ->
  migrate_file join dirname os src_rel dest_rel w =
    (Returned false,
     World (fs w)
           (console w ++ ["  [SKIP] Source not found: " +:+ src_rel])).
Proof.
  intros Hmiss. unfold migrate_file, mbind, M_bind, path_exists.
  rewrite Hmiss. rewrite bool_decide_eq_false_2 by (intros [? ?]; discriminate).
  reflexivity.
Qed.

(** After [os.makedirs], when the source is not a file that can be
    read: the read error is printed and nothing else happens. *)
Lemma read_text_fails (p : string) (w : world) :
  (forall stored, fs w !! p = Some (File stored) -> is_Some (read_err os p)) ->
  exists e, read_text os p w = (Raised e, w).
Proof.
  intros Hbad. unfold read_text. destruct (read_err os p) as [e|] eqn:He; [eauto|].
  destruct (fs w !! p) as [[stored|]|] eqn:Hp; [|eauto..].
  destruct (Hbad stored eq_refl) as [e' He']. discriminate.
Qed.


(** C1 (as amended): when the source is a file and [migrate_file]
    returns [True], the destination is a file, whatever was at its path
    before; it holds [update_content] of the source as read, written
    with the line separator of the system; and read in its turn it
    gives just that text. *)
Theorem migrate_file_true_content (src_rel dest_rel : string)
    (stored : text) (w w' : world) :
  fs w !! join SRC_BASE src_rel = Some (File stored) ->
  migrate_file join dirname os src_rel dest_rel w = (Returned true, w') ->
  exists updated_content,
    update_content (read_newlines stored) = Some updated_content /\
    fs w' !! join DEST_BASE dest_rel
      = Some (File (write_newlines (linesep os) updated_content)) /\
    read_newlines (write_newlines (linesep os) updated_content)
      = updated_content.
Proof.
  intros Hsrc Hrun.
  exists (apply_rules rules (read_newlines stored)).
  split; [apply update_content_eq|]. split; [|apply updated_round_trip].
  revert Hrun.
  unfold migrate_file, mbind, M_bind, path_exists.
  rewrite Hsrc. rewrite bool_decide_eq_true_2 by eauto. cbn [negb].
  pose proof (makedirs_keeps dirname os (dirname (join DEST_BASE dest_rel))
                w _ _ Hsrc) as Hsrc1.
  destruct (makedirs dirname os _ w) as [[[]|e] w1]; [|discriminate].
  cbn [snd] in Hsrc1.
  unfold try_except, read_text, mbind, M_bind.
  destruct (read_err os _); [cbn; discriminate|].
  rewrite Hsrc1. cbn [mret M_ret].
  rewrite update_content_eq.
  generalize (apply_rules rules (read_newlines stored)). intros updated.
  unfold write_text.
  destruct (write_err os _) as [[e|e written]|].
  - cbn. discriminate.
  - destruct (is_dir _ _); cbn; discriminate.
  - destruct (is_dir _ _); cbn; [discriminate|].
    intros H. apply (f_equal snd) in H. cbn [snd] in H.
    rewrite <- H. cbn [fs]. apply lookup_insert_eq.
Qed.
End MigrateFile.



Lemma migrate_file_true_content_witness :
  exists updated_content,
    update_content (read_newlines Sample.page) = Some updated_content /\
    after Platform.join Platform.dirname no_faults (fs Sample.w_first)
      Sample.first_src Sample.first_dest
      !! Platform.dest_path Sample.first_dest
      = Some (File (write_newlines Posix updated_content)) /\
    read_newlines (write_newlines Posix updated_content) = updated_content.
Proof.
  apply (migrate_file_true_content Platform.join Platform.dirname no_faults
           Sample.first_src Sample.first_dest Sample.page Sample.w_first).
  - by_vm.
  - by_vm.
Defined.

(** The witness world really has a stale destination that is replaced. *)
Example first_destination_replaced :
  fs Sample.w_first !! Platform.dest_path Sample.first_dest
    = Some (File (cp "stale")) /\
  after Platform.join Platform.dirname no_faults (fs Sample.w_first)
    Sample.first_src Sample.first_dest
    !! Platform.dest_path Sample.first_dest
    = Some (File (cp "namespace DatasetStudio.ClientApp.Features.Datasets.Pages;")).
Proof. split; by_vm. Qed.

(** C1 (as stated) fails: the characters of the destination are not
    [update_content] of the characters of the source when the source
    has lines that end in CR LF or CR.  On a POSIX system they all end
    in LF afterwards, on Windows in CR LF. *)
Lemma line_ends_are_not_copied :
  let posix := migrate_file Platform.join Platform.dirname no_faults
                 Sample.first_src Sample.first_dest Sample.w_mixed in
  let windows := migrate_file Platform.join Platform.dirname Sample.os_windows
                   Sample.first_src Sample.first_dest Sample.w_mixed in
  fs Sample.w_mixed !! Platform.src_path Sample.first_src
    = Some (File [97; CR; LF; 98; CR; 99]%N)
  /\ update_content [97; CR; LF; 98; CR; 99]%N
     = Some [97; CR; LF; 98; CR; 99]%N
  /\ posix.1 = Returned true
  /\ fs posix.2 !! Platform.dest_path Sample.first_dest
     = Some (File [97; LF; 98; LF; 99]%N)
  /\ windows.1 = Returned true
  /\ fs windows.2 !! Platform.dest_path Sample.first_dest
     = Some (File [97; CR; LF; 98; CR; LF; 99]%N).
Proof. cbv zeta. repeat split; by_vm. Qed.

(** ** Exceptions that leave [migrate_file] *)

(** C2: with a regular file in the place of the destination directory,
    [migrate_file] does not return [False]: the exception of
    [os.makedirs] leaves it, and nothing is printed. *)
Theorem migrate_file_propagates_makedirs_error :
  migrate_file Platform.join Platform.dirname no_faults
    Sample.first_src Sample.first_dest Sample.w_blocked
  = (Raised ("[Errno 17] File exists: "
             ++ repr (Platform.dest_path "Features/Datasets/Pages")),
     Sample.w_blocked).
Proof. by_vm. Qed.

(** C7: in the same file tree the run of [main] ends with an uncaught
    exception, and the exit status is 1. *)
Theorem exit_status_nonzero :
  exit_status Platform.join Platform.dirname no_faults Sample.w_blocked = 1.
Proof. by_vm. Qed.
(** ** The whole run *)

Section Main.
Variable join : string -> string -> string.
Variable dirname : string -> string.
Variable os : faults.

Lemma is_file_true (m : gmap string node) (p : string) :
  is_file m p = true -> exists content, m !! p = Some (File content).
Proof.
  unfold is_file. destruct (m !! p) as [[c|]|]; try discriminate. eauto.
Qed.

Lemma can_migrate_runs (m : gmap string node) (src_rel dest_rel : string) :
  can_migrate join dirname os m src_rel dest_rel = true ->
  exists m', forall lines,
    migrate_file join dirname os src_rel dest_rel (World m lines) =
      (Returned true,
       World m' (lines ++ ["  [OK] " +:+ src_rel +:+ " -> " +:+ dest_rel])).
Proof.
  unfold can_migrate. rewrite !andb_true_iff, !negb_true_iff.
  rewrite !bool_decide_eq_true.
  intros [[[[Hsrc Hread] Hfree] Hdir] Hwrite].
  apply is_file_true in Hsrc as [content Hsrc].
  eexists. intros lines.
  unfold migrate_file, mbind, M_bind, path_exists. cbn [fs].
  rewrite Hsrc. rewrite bool_decide_eq_true_2 by eauto. cbn [negb].
  rewrite (makedirs_returns dirname os _ (World m lines)) by exact Hfree.
  unfold try_except, read_text, mbind, M_bind. rewrite Hread. cbn [fs console].
  rewrite (ensure_dirs_keep _ _ _ _ Hsrc). cbn [mret M_ret].
  rewrite update_content_eq. unfold write_text. cbn [fs console].
  destruct (write_err os _); [discriminate|]. rewrite Hdir.
  cbn. reflexivity.
Qed.

Lemma can_migrate_after (m : gmap string node) (src_rel dest_rel : string) :
  can_migrate join dirname os m src_rel dest_rel = true ->
  forall lines,
    migrate_file join dirname os src_rel dest_rel (World m lines) =
      (Returned true,
       World (after join dirname os m src_rel dest_rel)
             (lines ++ ["  [OK] " +:+ src_rel +:+ " -> " +:+ dest_rel])).
Proof.
  intros Hcan lines. destruct (can_migrate_runs _ _ _ Hcan) as [m' Hm'].
  unfold after. rewrite (Hm' []). apply Hm'.
Qed.

Lemma missing_after (m : gmap string node) (src_rel dest_rel : string) :
  m !! join SRC_BASE src_rel = None ->
  after join dirname os m src_rel dest_rel = m.
Proof.
  intros Hmiss. unfold after.
  rewrite (migrate_file_skip join dirname os src_rel dest_rel (World m []))
    by exact Hmiss.
  reflexivity.
Qed.

Lemma main_loop_counts (m : gmap string node)
    (mappings : list (string * string)) (k : nat) :
  scenario join dirname os m mappings k ->
  forall success_count fail_count printed,
  exists m' lines,
    main_loop join dirname os mappings success_count fail_count
      (World m printed) =
      (Returned (success_count + (length mappings - k), fail_count + k),
       World m' (printed ++ lines))
    /\ length lines = length mappings
    /\ k <= length mappings.
Proof.
  induction 1 as [m|m src_rel dest_rel rest k Hmiss _ IH
                   |m src_rel dest_rel rest k Hcan _ IH];
    intros sc fc printed.
  - exists m, []. cbn. rewrite !Nat.add_0_r, app_nil_r.
    repeat split; reflexivity || lia.
  - cbn [main_loop]. unfold mbind, M_bind.
    rewrite (migrate_file_skip _ _ _ _ _ (World m printed)) by exact Hmiss.
    rewrite missing_after in IH by exact Hmiss. cbn [fs console].
    destruct (IH sc (fc + 1)
                (printed ++ ["  [SKIP] Source not found: " +:+ src_rel]))
      as (m' & lines & Hrun & Hlen & Hle).
    exists m', (("  [SKIP] Source not found: " +:+ src_rel) :: lines).
    rewrite Hrun. rewrite <- app_assoc. cbn [app length].
    repeat split; try lia.
    do 2 f_equal. f_equal; lia.
  - cbn [main_loop]. unfold mbind, M_bind.
    rewrite can_migrate_after by exact Hcan.
    destruct (IH (sc + 1) fc
                (printed ++ ["  [OK] " +:+ src_rel +:+ " -> " +:+ dest_rel]))
      as (m' & lines & Hrun & Hlen & Hle).
    exists m', (("  [OK] " +:+ src_rel +:+ " -> " +:+ dest_rel) :: lines).
    rewrite Hrun. rewrite <- app_assoc. cbn [app length].
    repeat split; try lia.
    do 2 f_equal. f_equal; lia.
Qed.

Lemma main_on_counts (w : world) (mappings : list (string * string))
    (k : nat) :
  scenario join dirname os (fs w) mappings k ->
  exists m' lines,
    main_on join dirname os mappings w =
      (Returned (),
       World m' (console w ++ banner (length mappings) ++ lines
                 ++ [""; summary (length mappings - k) k]))
    /\ length lines = length mappings
    /\ k <= length mappings.
Proof.
  intros Hsc.
  destruct (main_loop_counts _ _ _ Hsc 0 0
              (console w ++ banner (length mappings)))
    as (m' & lines & Hrun & Hlen & Hle).
  unfold main_on, mbind, M_bind, print. cbn [fs console].
  rewrite <- !app_assoc. cbn [app].
  unfold banner in Hrun. cbn [app] in Hrun. rewrite Hrun.
  exists m', lines. cbn [console fst snd fs]. unfold banner.
  rewrite <- !app_assoc. cbn [app].
  split; [reflexivity|]. split; [exact Hlen|exact Hle].
Qed.
End Main.

(** C6: in a run of [main] over the 59 mappings of [FILE_MAPPINGS] in
    which [k] mappings meet a missing source and the other [59 - k] can
    be read and written, [main] returns; between the banner and the
    summary the loop prints one line for each of the 59 mappings; and the
    last line reports [59 - k] succeeded and [k] failed. *)
Theorem main_reports_counts join dirname os (w : world) (k : nat) :
  scenario join dirname os (fs w) FILE_MAPPINGS k ->
  exists m' lines,
    main join dirname os w =
      (Returned (),
       World m' (console w ++ banner 59 ++ lines
                 ++ [""; "Migration complete: " +:+ pretty (59 - k)
                         +:+ " succeeded, " +:+ pretty k +:+ " failed"]))
    /\ length lines = 59
    /\ (59 - k) + k = 59.
Proof.
  intros Hsc.
  destruct (main_on_counts join dirname os w FILE_MAPPINGS k Hsc)
    as (m' & lines & Hrun & Hlen & Hle).
  change (length FILE_MAPPINGS) with 59 in *.
  exists m', lines. split; [exact Hrun|]. split; [exact Hlen|lia].
Qed.

Lemma main_reports_counts_witness :
  exists m' lines,
    main Platform.join Platform.dirname no_faults Sample.w_first =
      (Returned (),
       World m' (banner 59 ++ lines
                 ++ [""; "Migration complete: 1 succeeded, 58 failed"]))
    /\ length lines = 59
    /\ 1 + 58 = 59.
Proof.
  apply (main_reports_counts Platform.join Platform.dirname no_faults
           Sample.w_first 58).
  unfold FILE_MAPPINGS.
  apply scenario_present; [by_vm|].
  set (m1 := after _ _ _ _ _ _).
  assert (Hmiss : forall src_rel,
             m1 !! Platform.join SRC_BASE src_rel = None ->
             forall dest_rel rest k,
               scenario Platform.join Platform.dirname no_faults m1 rest k ->
               scenario Platform.join Platform.dirname no_faults m1
                 ((src_rel, dest_rel) :: rest) (S k)).
  { intros src_rel Hnone dest_rel rest k Hrest.
    apply scenario_missing; [exact Hnone|].
    rewrite missing_after by exact Hnone. exact Hrest. }
  repeat (apply Hmiss; [by_vm|]).
  apply scenario_done.
Defined.

(** ** The order of the mappings *)

(** C8: in a file tree where the directory of the sixth destination
    cannot be made, the order of the mappings decides what is written.
    In declaration order the first file is migrated before
    [os.makedirs] raises for the sixth; with the sixth mapping moved to
    the front the exception comes first and nothing is written. *)
Theorem order_matters_when_makedirs_raises :
  Sample.sixth_first ≡ₚ FILE_MAPPINGS
  /\ final_fs Platform.join Platform.dirname no_faults
       FILE_MAPPINGS Sample.w_second_blocked
       !! Platform.dest_path Sample.first_dest
     = Some (File (cp "namespace DatasetStudio.ClientApp.Features.Datasets.Pages;"))
  /\ final_fs Platform.join Platform.dirname no_faults
       Sample.sixth_first Sample.w_second_blocked
       !! Platform.dest_path Sample.first_dest
     = None.
Proof.
  split; [|split; by_vm].
  unfold Sample.sixth_first.
  rewrite <- (take_drop 5 FILE_MAPPINGS) at 3.
  change (drop 5 FILE_MAPPINGS)
    with (("Pages/Settings.razor", "Features/Settings/Pages/Settings.razor")
          :: drop 6 FILE_MAPPINGS).
  apply Permutation_middle.
Qed.


(** ** Independent mappings

    Apart from an exception of [os.makedirs], which ends the run, the
    mappings of the table do not influence each other. *)

Section Order.
Variable join : string -> string -> string.
Variable dirname : string -> string.
Variable os : faults.

(** [raises] and [effect] describe [migrate_file].  A call that raises
    has printed nothing and has made at most directories above the
    destination directory. *)
Lemma migrate_file_effect (src_rel dest_rel : string)
    (m : gmap string node) (printed : list string) :
  let r := migrate_file join dirname os src_rel dest_rel (World m printed) in
  if raises join dirname os m (src_rel, dest_rel)
  then (exists e, r.1 = Raised e) /\ console r.2 = printed
       /\ grown m (fs r.2) (parents dirname (dirname (join DEST_BASE dest_rel)))
  else fs r.2 = effect join dirname os m (src_rel, dest_rel)
       /\ exists ok, r.1 = Returned ok.
Proof.
  cbv zeta. unfold raises, effect, written, made_of, src_of, dest_of.
  cbn [fst snd].
  unfold migrate_file, mbind, M_bind, path_exists. cbn [fs].
  destruct (bool_decide (is_Some (m !! join SRC_BASE src_rel))) eqn:Hex;
    cbn [negb andb].
  2:{ cbn. eauto. }
  destruct (existsb _ _) eqn:Hblocked.
  { destruct (makedirs_raises dirname os _ (World m printed) Hblocked)
      as (e & m' & -> & Hg). cbn. eauto. }
  rewrite (makedirs_returns dirname os _ (World m printed) Hblocked).
  cbn [fs console].
  unfold try_except, read_text, mbind, M_bind. cbn [fs console].
  destruct (read_err os _) as [e|]; [cbn; eauto|].
  destruct (foldl ensure_dir m _ !! join SRC_BASE src_rel) as [[content|]|];
    [|cbn; eauto..].
  cbn [mret M_ret]. rewrite update_content_eq.
  unfold write_text. cbn [fs console].
  destruct (write_err os _) as [[e|e partial]|]; [cbn; eauto|..];
    destruct (is_dir _ _); cbn; eauto.
Qed.

Lemma written_ext (m1 m2 : gmap string node) (b : string * string) :
  m1 !! src_of join b = m2 !! src_of join b ->
  m1 !! dest_of join b = m2 !! dest_of join b ->
  written join os m1 b = written join os m2 b.
Proof. intros Hs Hd. unfold written, is_dir. by rewrite Hs, Hd. Qed.

(** The file tree after a call, key by key. *)
Lemma effect_lookup (m : gmap string node) (a : string * string) (k : string) :
  effect join dirname os m a !! k =
    if bool_decide (is_Some (m !! src_of join a)) then
      match written join os (foldl ensure_dir m (made_of join dirname a)) a with
      | Some n =>
          if bool_decide (k = dest_of join a) then Some n
          else foldl ensure_dir m (made_of join dirname a) !! k
      | None => foldl ensure_dir m (made_of join dirname a) !! k
      end
    else m !! k.
Proof.
  unfold effect. destruct (bool_decide _); [|done]. cbv zeta.
  destruct (written _ _ _ _); [|done].
  destruct (decide (k = dest_of join a)) as [->|Hne].
  - by rewrite lookup_insert_eq, bool_decide_eq_true_2.
  - by rewrite lookup_insert_ne, bool_decide_eq_false_2.
Qed.

(** A call changes nothing outside its destination and directories. *)
Lemma effect_lookup_other (m : gmap string node) (a : string * string)
    (k : string) :
  k ∉ (dest_of join a :: made_of join dirname a) ->
  effect join dirname os m a !! k = m !! k.
Proof.
  intros Hk. apply not_elem_of_cons in Hk as [Hd Hm].
  rewrite effect_lookup. destruct (bool_decide _); [|done].
  assert (foldl ensure_dir m (made_of join dirname a) !! k = m !! k) as Hsame.
  { rewrite ensure_dirs_lookup, (bool_decide_eq_false_2 _ Hm).
    by destruct (m !! k). }
  destruct (written _ _ _ _); [|done].
  by rewrite bool_decide_eq_false_2.
Qed.

(** Away from its destination a call makes no regular file. *)
Lemma effect_is_file (m : gmap string node) (a : string * string)
    (k : string) :
  k <> dest_of join a ->
  is_file (effect join dirname os m a) k = is_file m k.
Proof.
  intros Hk. unfold is_file. rewrite effect_lookup.
  destruct (bool_decide _); [|done].
  assert (match foldl ensure_dir m (made_of join dirname a) !! k with
          | Some (File _) => true | _ => false end
          = match m !! k with Some (File _) => true | _ => false end) as Hsame.
  { rewrite ensure_dirs_lookup. destruct (m !! k); [done|].
    by destruct (bool_decide _). }
  destruct (written _ _ _ _); [|done].
  by rewrite bool_decide_eq_false_2.
Qed.

Lemma apart_inv (a b : string * string) :
  apart join dirname a b = true ->
  (src_of join b ∉ (dest_of join a :: made_of join dirname a))
  /\ (dest_of join b ∉ (dest_of join a :: made_of join dirname a))
  /\ (dest_of join a ∉ made_of join dirname b).
Proof.
  unfold apart. rewrite !andb_true_iff, !negb_true_iff, !bool_decide_eq_false.
  tauto.
Qed.

(** Whether [b] raises is not changed by a call for [a] that does not
    raise: the directories it makes are ones that could be made. *)
Lemma raises_after_call (m : gmap string node) (a b : string * string) :
  src_of join b ∉ (dest_of join a :: made_of join dirname a) ->
  dest_of join a ∉ made_of join dirname b ->
  raises join dirname os m a = false ->
  raises join dirname os (effect join dirname os m a) b
  = raises join dirname os m b.
Proof.
  intros Hsrc Hdest Hno. unfold raises at 1 2.
  rewrite (effect_lookup_other m a _ Hsrc). f_equal.
  unfold raises in Hno.
  induction (made_of join dirname b) as [|k ks IH]; [done|].
  apply not_elem_of_cons in Hdest as [Hk Hks]. cbn [existsb].
  rewrite IH by exact Hks. f_equal.
  unfold blocked. rewrite effect_lookup.
  destruct (bool_decide (is_Some (m !! src_of join a))); [|done].
  cbn [andb] in Hno.
  assert (Hdirs : match foldl ensure_dir m (made_of join dirname a) !! k with
                  | Some (File _) => true
                  | Some Dir => false
                  | None => bool_decide (is_Some (mkdir_err os k))
                  end
                  = match m !! k with
                    | Some (File _) => true
                    | Some Dir => false
                    | None => bool_decide (is_Some (mkdir_err os k))
                    end).
  { rewrite ensure_dirs_lookup. destruct (m !! k) eqn:Hmk; [done|].
    case_bool_decide as Hin; [|done].
    assert (blocked os m k = false) as Hfree.
    { destruct (blocked os m k) eqn:Hb; [|done].
      assert (existsb (blocked os m) (made_of join dirname a) = true)
        as Hex by (apply existsb_exists; exists k;
                   split; [by apply list_elem_of_In|done]).
      congruence. }
    unfold blocked in Hfree. by rewrite Hmk in Hfree. }
  destruct (written _ _ _ _); [|exact Hdirs].
  rewrite bool_decide_eq_false_2 by (intros ->; done). exact Hdirs.
Qed.

Lemma raises_after (m : gmap string node) (a b : string * string) :
  apart join dirname a b = true ->
  raises join dirname os m a = false ->
  raises join dirname os (effect join dirname os m a) b
  = raises join dirname os m b.
Proof.
  intros (Hsrc & _ & Hdest)%apart_inv. by apply raises_after_call.
Qed.

Lemma written_after (m : gmap string node) (a b : string * string) :
  apart join dirname a b = true ->
  written join os
    (foldl ensure_dir (effect join dirname os m a) (made_of join dirname b)) b
  = written join os (foldl ensure_dir m (made_of join dirname b)) b.
Proof.
  intros (Hsrc & Hdest & _)%apart_inv.
  apply written_ext; rewrite !ensure_dirs_lookup;
    by rewrite effect_lookup_other.
Qed.

(** Calls for two mappings that are apart can be exchanged. *)
Lemma effect_comm (m : gmap string node) (a b : string * string) :
  apart join dirname a b = true -> apart join dirname b a = true ->
  dest_of join a ∉ made_of join dirname a ->
  dest_of join b ∉ made_of join dirname b ->
  effect join dirname os (effect join dirname os m a) b
  = effect join dirname os (effect join dirname os m b) a.
Proof.
  intros Hab Hba Haa Hbb. apply map_eq. intros k.
  rewrite (effect_lookup (effect join dirname os m a) b k).
  rewrite (effect_lookup (effect join dirname os m b) a k).
  rewrite (written_after m a b Hab), (written_after m b a Hba).
  pose proof (apart_inv _ _ Hab) as (Hsb & Hdb & Hda').
  pose proof (apart_inv _ _ Hba) as (Hsa & Hda & Hdb').
  rewrite (effect_lookup_other m a _ Hsb), (effect_lookup_other m b _ Hsa).
  rewrite !ensure_dirs_lookup, !effect_lookup, !ensure_dirs_lookup.
  apply not_elem_of_cons in Hdb as [Hne _].
  generalize (written join os (foldl ensure_dir m (made_of join dirname a)) a).
  generalize (written join os (foldl ensure_dir m (made_of join dirname b)) b).
  generalize (bool_decide (is_Some (m !! src_of join a))).
  generalize (bool_decide (is_Some (m !! src_of join b))).
  intros Pb Pa Wb Wa.
  destruct Pa, Pb, Wa, Wb, (m !! k);
    repeat case_bool_decide; simplify_eq; done.
Qed.

(** *** The loop in terms of [clean] and [effects] *)

Lemma main_loop_clean (mappings : list (string * string)) :
  forall (m : gmap string node) (sc fc : nat) (printed : list string),
    clean join dirname os mappings m = true ->
    exists counts w',
      main_loop join dirname os mappings sc fc (World m printed)
      = (Returned counts, w')
      /\ fs w' = effects join dirname os mappings m.
Proof.
  induction mappings as [|[src_rel dest_rel] rest IH];
    intros m sc fc printed Hclean.
  - eexists _, _. split; reflexivity.
  - cbn [clean] in Hclean.
    apply andb_true_iff in Hclean as [Hno%negb_true_iff Hclean].
    pose proof (migrate_file_effect src_rel dest_rel m printed) as Heff.
    cbv zeta in Heff. rewrite Hno in Heff.
    cbn [main_loop]. unfold mbind, M_bind.
    destruct (migrate_file join dirname os src_rel dest_rel (World m printed))
      as [o [m1 printed1]].
    cbn [fst snd fs] in Heff. destruct Heff as [-> [ok ->]].
    unfold effects. cbn [foldl].
    destruct ok; apply IH; exact Hclean.
Qed.

Lemma main_loop_raises (mappings : list (string * string)) :
  forall (m : gmap string node) (sc fc : nat) (printed : list string),
    clean join dirname os mappings m = false ->
    exists e w',
      main_loop join dirname os mappings sc fc (World m printed)
      = (Raised e, w').
Proof.
  induction mappings as [|[src_rel dest_rel] rest IH];
    intros m sc fc printed Hclean; [discriminate|].
  cbn [clean] in Hclean.
  pose proof (migrate_file_effect src_rel dest_rel m printed) as Heff.
  cbv zeta in Heff.
  cbn [main_loop]. unfold mbind, M_bind.
  destruct (migrate_file join dirname os src_rel dest_rel (World m printed))
    as [o [m1 printed1]].
  cbn [fst snd fs] in Heff.
  destruct (raises join dirname os m (src_rel, dest_rel)).
  - destruct Heff as [[e ->] _]. eauto.
  - cbn [negb andb] in Hclean. destruct Heff as [-> [ok ->]].
    destruct ok; apply IH; exact Hclean.
Qed.

Lemma main_on_clean (mappings : list (string * string)) (w : world) :
  clean join dirname os mappings (fs w) = true ->
  (main_on join dirname os mappings w).1 = Returned ()
  /\ final_fs join dirname os mappings w
     = effects join dirname os mappings (fs w).
Proof.
  intros Hclean. unfold final_fs, main_on, mbind, M_bind, print.
  cbn [fs console].
  destruct (main_loop_clean mappings (fs w) 0 0
              (console w ++ banner (length mappings)) Hclean)
    as (counts & w' & Hrun & Hfs).
  rewrite <- !app_assoc. cbn [app].
  unfold banner in Hrun. cbn [app] in Hrun. rewrite Hrun. cbn [fst snd fs]. by split.
Qed.

Lemma main_on_returns_clean (mappings : list (string * string)) (w : world) :
  (main_on join dirname os mappings w).1 = Returned () ->
  clean join dirname os mappings (fs w) = true.
Proof.
  intros Hret.
  destruct (clean join dirname os mappings (fs w)) eqn:Hclean; [done|].
  exfalso. revert Hret. unfold main_on, mbind, M_bind, print.
  cbn [fs console].
  destruct (main_loop_raises mappings (fs w) 0 0
              (console w ++ banner (length mappings)) Hclean)
    as (e & w' & Hrun).
  rewrite <- !app_assoc. cbn [app].
  unfold banner in Hrun. cbn [app] in Hrun. rewrite Hrun. discriminate.
Qed.

(** *** Any order *)

Lemma independent_inv (mappings : list (string * string))
    (a b : string * string) :
  independent join dirname mappings = true ->
  a ∈ mappings -> b ∈ mappings ->
  (dest_of join a ∉ made_of join dirname a)
  /\ (a <> b -> apart join dirname a b = true).
Proof.
  unfold independent. rewrite forallb_forall.
  intros Hall Ha%list_elem_of_In Hb%list_elem_of_In.
  specialize (Hall a Ha).
  apply andb_true_iff in Hall as [Hself%negb_true_iff Hall].
  apply bool_decide_eq_false in Hself. split; [exact Hself|].
  intros Hne. rewrite forallb_forall in Hall. specialize (Hall b Hb).
  apply orb_true_iff in Hall as [Heq%bool_decide_eq_true|Hap]; done.
Qed.

Lemma independent_comm (mappings : list (string * string))
    (a b : string * string) (m : gmap string node) :
  independent join dirname mappings = true ->
  a ∈ mappings -> b ∈ mappings ->
  effect join dirname os (effect join dirname os m a) b
  = effect join dirname os (effect join dirname os m b) a.
Proof.
  intros Hind Ha Hb. destruct (decide (a = b)) as [->|Hne]; [done|].
  destruct (independent_inv _ a b Hind Ha Hb) as [Haa Hab].
  destruct (independent_inv _ b a Hind Hb Ha) as [Hbb Hba].
  apply effect_comm; auto.
Qed.

Lemma effects_permutation (l1 l2 : list (string * string)) :
  l1 ≡ₚ l2 ->
  (forall a b m, a ∈ l1 -> b ∈ l1 ->
     effect join dirname os (effect join dirname os m a) b
     = effect join dirname os (effect join dirname os m b) a) ->
  forall m, effects join dirname os l1 m = effects join dirname os l2 m.
Proof.
  unfold effects.
  induction 1 as [|x l1 l2 _ IH|x y l|l1 l2 l3 H12 IH12 _ IH23];
    intros Hcomm m; cbn [foldl].
  - done.
  - apply IH. intros a b m' Ha Hb. apply Hcomm; by right.
  - f_equal. apply Hcomm; [by left|right; by left].
  - rewrite IH12 by exact Hcomm. apply IH23.
    intros a b m' Ha Hb. apply Hcomm; by rewrite H12.
Qed.

Lemma forallb_agree {X} (f g : X -> bool) (l : list X) :
  (forall x, x ∈ l -> f x = g x) -> forallb f l = forallb g l.
Proof.
  induction l as [|x l IH]; intros Hfg; [done|]. cbn [forallb].
  rewrite Hfg by (by left). rewrite IH; [done|].
  intros y Hy. apply Hfg. by right.
Qed.

Lemma forallb_permutation {X} (f : X -> bool) (l1 l2 : list X) :
  l1 ≡ₚ l2 -> forallb f l1 = forallb f l2.
Proof.
  induction 1 as [|x l1 l2 _ IH|x y l|l1 l2 l3 _ IH12 _ IH23]; cbn [forallb].
  - done.
  - by rewrite IH.
  - by destruct (f x), (f y).
  - by rewrite IH12.
Qed.

(** With independent mappings, whether a run raises can be read off the
    file tree it starts in. *)
Lemma clean_forall (mappings : list (string * string)) :
  NoDup mappings ->
  (forall a b, a ∈ mappings -> b ∈ mappings -> a <> b ->
               apart join dirname a b = true) ->
  forall m,
    clean join dirname os mappings m
    = forallb (fun b => negb (raises join dirname os m b)) mappings.
Proof.
  induction mappings as [|a rest IH]; intros Hnd Hap m; [done|].
  apply NoDup_cons in Hnd as [Ha Hnd]. cbn [clean forallb].
  destruct (raises join dirname os m a) eqn:Hno; [done|]. cbn [negb andb].
  rewrite IH; [|exact Hnd|].
  - apply forallb_agree. intros b Hb. f_equal. apply raises_after; [|exact Hno].
    apply Hap; [by left|by right|]. intros ->. done.
  - intros b c Hb Hc. apply Hap; by right.
Qed.

Lemma clean_permutation (l1 l2 : list (string * string))
    (m : gmap string node) :
  l1 ≡ₚ l2 -> NoDup l1 -> independent join dirname l1 = true ->
  clean join dirname os l1 m = clean join dirname os l2 m.
Proof.
  intros Hperm Hnd Hind.
  assert (Hap : forall a b, a ∈ l1 -> b ∈ l1 -> a <> b ->
                            apart join dirname a b = true).
  { intros a b Ha Hb. by apply (independent_inv l1 a b Hind Ha Hb). }
  rewrite (clean_forall l1 Hnd Hap).
  rewrite (clean_forall l2).
  - by apply forallb_permutation.
  - by rewrite <- Hperm.
  - intros a b Ha Hb. apply Hap; by rewrite Hperm.
Qed.

(** A run over independent mappings that returns does, in any other
    order, return too and leave the same file tree. *)
Lemma main_on_permutation (l1 l2 : list (string * string)) (w : world) :
  l1 ≡ₚ l2 -> NoDup l1 -> independent join dirname l1 = true ->
  (main_on join dirname os l1 w).1 = Returned () ->
  (main_on join dirname os l2 w).1 = Returned ()
  /\ final_fs join dirname os l2 w = final_fs join dirname os l1 w.
Proof.
  intros Hperm Hnd Hind Hret.
  pose proof (main_on_returns_clean l1 w Hret) as Hclean1.
  assert (Hclean2 : clean join dirname os l2 (fs w) = true)
    by (by rewrite <- (clean_permutation l1 l2 (fs w) Hperm Hnd Hind)).
  destruct (main_on_clean l1 w Hclean1) as [_ Hfs1].
  destruct (main_on_clean l2 w Hclean2) as [Hret2 Hfs2].
  split; [exact Hret2|]. rewrite Hfs1, Hfs2. symmetry.
  apply effects_permutation; [exact Hperm|].
  intros a b m Ha Hb. by apply (independent_comm l1).
Qed.
End Order.

(** The table on the concrete platform: destinations are pairwise
    distinct, no destination is a directory some mapping needs, and no
    source is touched. *)
Lemma file_mappings_independent :
  independent Platform.join Platform.dirname FILE_MAPPINGS = true
  /\ NoDup FILE_MAPPINGS
  /\ NoDup (map (dest_of Platform.join) FILE_MAPPINGS).
Proof.
  split; [by_vm|].
  split; apply (bool_decide_unpack _); by_vm.
Qed.

Lemma main_unfold join dirname os :
  main join dirname os = main_on join dirname os FILE_MAPPINGS.
Proof. reflexivity. Qed.

Lemma sixth_first_permutation : Sample.sixth_first ≡ₚ FILE_MAPPINGS.
Proof.
  unfold Sample.sixth_first.
  rewrite <- (take_drop 5 FILE_MAPPINGS) at 3.
  change (drop 5 FILE_MAPPINGS)
    with (("Pages/Settings.razor", "Features/Settings/Pages/Settings.razor")
          :: drop 6 FILE_MAPPINGS).
  apply Permutation_middle.
Defined.

(** X1: unless an exception ends the run, the order of the mappings does
    not matter: when [main] returns, the run over any reordering of
    [FILE_MAPPINGS] returns as well and leaves the same file tree,
    whatever the read and write failures of the system. *)
Theorem order_irrelevant_when_main_returns (os : faults) (w : world)
    (mappings : list (string * string)) :
  mappings ≡ₚ FILE_MAPPINGS ->
  (main Platform.join Platform.dirname os w).1 = Returned () ->
  (main_on Platform.join Platform.dirname os mappings w).1 = Returned ()
  /\ final_fs Platform.join Platform.dirname os mappings w
     = final_fs Platform.join Platform.dirname os FILE_MAPPINGS w.
Proof.
  intros Hperm Hret.
  destruct file_mappings_independent as (Hind & Hnd & _).
  symmetry in Hperm. rewrite main_unfold in Hret.
  exact (main_on_permutation Platform.join Platform.dirname os
           FILE_MAPPINGS mappings w Hperm Hnd Hind Hret).
Qed.

Lemma order_irrelevant_when_main_returns_witness :
  (main_on Platform.join Platform.dirname no_faults
     Sample.sixth_first Sample.w_first).1 = Returned ()
  /\ final_fs Platform.join Platform.dirname no_faults
       Sample.sixth_first Sample.w_first
     = final_fs Platform.join Platform.dirname no_faults
         FILE_MAPPINGS Sample.w_first.
Proof.
  apply (order_irrelevant_when_main_returns no_faults Sample.w_first
           Sample.sixth_first).
  - exact sixth_first_permutation.
  - by_vm.
Defined.

Section CallOutcomes.
Variable join : string -> string -> string.
Variable dirname : string -> string.
Variable os : faults.

(** What making directories leaves of the regular files: all of them. *)
Lemma ensure_dirs_files (ks : list string) (m : gmap string node)
    (k : string) (content : text) :
  foldl ensure_dir m ks !! k = Some (File content)
  <-> m !! k = Some (File content).
Proof.
  rewrite ensure_dirs_lookup. destruct (m !! k); [done|].
  destruct (bool_decide _); split; discriminate.
Qed.

(** X2: [migrate_file] raises exactly when the source exists and
    [os.makedirs] fails: the destination directory or a directory above
    it is a regular file, or is missing and cannot be made.  Then
    nothing has been printed, and the file tree has at most grown by
    directories above the destination directory, the ones
    [os.makedirs] made before it failed; nothing that was there has
    changed.  In every other case [migrate_file] returns a boolean. *)
Theorem migrate_file_raises_iff (src_rel dest_rel : string) (w : world) :
  let dest_dir := dirname (join DEST_BASE dest_rel) in
  if bool_decide (is_Some (fs w !! join SRC_BASE src_rel))
     && existsb (blocked os (fs w)) (dest_dir :: parents dirname dest_dir)
  then exists e w',
         migrate_file join dirname os src_rel dest_rel w = (Raised e, w')
         /\ console w' = console w
         /\ grown (fs w) (fs w') (parents dirname dest_dir)
  else exists ok, (migrate_file join dirname os src_rel dest_rel w).1
                  = Returned ok.
Proof.
  pose proof (migrate_file_effect join dirname os src_rel dest_rel
                (fs w) (console w)) as Heff.
  cbv zeta in Heff |- *. unfold raises, made_of, src_of, dest_of in Heff.
  cbn [fst snd] in Heff.
  replace (World (fs w) (console w)) with w in Heff by (by destruct w).
  destruct (bool_decide (is_Some (fs w !! join SRC_BASE src_rel))
            && existsb (blocked os (fs w))
                 (dirname (join DEST_BASE dest_rel)
                  :: parents dirname (dirname (join DEST_BASE dest_rel)))).
  - destruct Heff as ([e He] & Hcon & Hg).
    destruct (migrate_file _ _ _ _ _ _) as [o w']. cbn [fst snd] in *.
    subst o. by exists e, w'.
  - by destruct Heff as [_ ?].
Qed.
End CallOutcomes.

(** The directories [os.makedirs] made before it failed stay: here the
    system refuses to make [Features/Datasets], and [Features] is there
    after the exception. *)
Example directories_left_by_failed_makedirs :
  let run := migrate_file Platform.join Platform.dirname Sample.os_no_datasets
               Sample.first_src Sample.first_dest Sample.w_base in
  run.1 = Raised (Sample.permission_denied
                    (Platform.dest_path "Features/Datasets"))
  /\ console run.2 = []
  /\ fs Sample.w_base !! Platform.dest_path "Features" = None
  /\ fs run.2 !! Platform.dest_path "Features" = Some Dir
  /\ fs run.2 !! Platform.dest_path "Features/Datasets" = None.
Proof. cbv zeta. repeat split; by_vm. Qed.

Section CallLines.
Variable join : string -> string -> string.
Variable dirname : string -> string.
Variable os : faults.

(** Every way in which [migrate_file] returns. *)
Lemma migrate_file_returned (src_rel dest_rel : string) (w w' : world)
    (ok : bool) :
  migrate_file join dirname os src_rel dest_rel w = (Returned ok, w') ->
  (ok = false /\ fs w !! join SRC_BASE src_rel = None /\ fs w' = fs w
   /\ console w' = console w ++ ["  [SKIP] Source not found: " +:+ src_rel])
  \/ (ok = false /\ is_Some (fs w !! join SRC_BASE src_rel) /\ exists e,
        console w' =
          console w ++ ["  [ERROR] Failed to read " +:+ src_rel +:+ ": " +:+ e])
  \/ (ok = false /\ is_Some (fs w !! join SRC_BASE src_rel) /\ exists e,
        console w' =
          console w
          ++ ["  [ERROR] Failed to write " +:+ dest_rel +:+ ": " +:+ e])
  \/ (ok = true /\ is_Some (fs w !! join SRC_BASE src_rel)
      /\ console w' =
           console w ++ ["  [OK] " +:+ src_rel +:+ " -> " +:+ dest_rel]).
Proof.
  unfold migrate_file, mbind, M_bind, path_exists.
  destruct (bool_decide (is_Some (fs w !! join SRC_BASE src_rel))) eqn:Hex;
    cbn [negb].
  2:{ apply bool_decide_eq_false in Hex.
      intros [= <- <-]. left. cbn [fs console]. repeat split.
      destruct (fs w !! join SRC_BASE src_rel); [|done].
      exfalso. apply Hex. eauto. }
  apply bool_decide_eq_true in Hex.
  destruct (existsb (blocked os (fs w))
              (dirname (join DEST_BASE dest_rel)
               :: parents dirname (dirname (join DEST_BASE dest_rel))))
    eqn:Hblocked.
  { destruct (makedirs_raises dirname os _ w Hblocked) as (e & m' & -> & _).
    discriminate. }
  rewrite (makedirs_returns dirname os _ w Hblocked).
  unfold try_except, read_text, mbind, M_bind. cbn [fs console].
  destruct (read_err os _) as [e|].
  { cbn. intros [= <- <-]. right. left. cbn [console]. eauto. }
  destruct (foldl ensure_dir (fs w) _ !! join SRC_BASE src_rel)
    as [[content|]|].
  2,3: cbn; intros [= <- <-]; right; left; cbn [console]; eauto.
  cbn [mret M_ret]. rewrite update_content_eq.
  generalize (apply_rules rules (read_newlines content)). intros updated.
  unfold write_text. cbn [fs console].
  destruct (write_err os _) as [[e|e partial]|].
  - cbn. intros [= <- <-]. right. right. left. cbn [console]. eauto.
  - destruct (is_dir _ _); cbn; intros [= <- <-]; right; right; left;
      cbn [console]; eauto.
  - destruct (is_dir _ _); cbn; intros [= <- <-].
    + right. right. left. cbn [console]. eauto.
    + right. right. right. cbn [console]. eauto.
Qed.
End CallLines.


Section CallResults.
Variable join : string -> string -> string.
Variable dirname : string -> string.
Variable os : faults.

(** X3: [migrate_file] returns [True] exactly when the source is a
    regular file the system lets it read, the destination directory can
    be made, and the destination can be opened and written. *)
Theorem migrate_file_true_iff (src_rel dest_rel : string) (w : world) :
  (migrate_file join dirname os src_rel dest_rel w).1 = Returned true
  <-> can_migrate join dirname os (fs w) src_rel dest_rel = true.
Proof.
  split.
  - unfold can_migrate, migrate_file, mbind, M_bind, path_exists, is_file.
    destruct (fs w !! join SRC_BASE src_rel) as [n|] eqn:Hsrc.
    2:{ rewrite bool_decide_eq_false_2 by (intros [? ?]; discriminate).
        cbn. discriminate. }
    rewrite bool_decide_eq_true_2 by eauto. cbn [negb].
    destruct (existsb (blocked os (fs w))
                (dirname (join DEST_BASE dest_rel)
                 :: parents dirname (dirname (join DEST_BASE dest_rel))))
      eqn:Hblocked.
    { destruct (makedirs_raises dirname os _ w Hblocked) as (e & m' & -> & _).
      cbn. discriminate. }
    rewrite (makedirs_returns dirname os _ w Hblocked).
    unfold try_except, read_text, mbind, M_bind. cbn [fs console].
    destruct (read_err os _); [cbn; discriminate|].
    rewrite (bool_decide_eq_true_2 (None = None)) by reflexivity.
    rewrite (ensure_dirs_keep _ _ _ _ Hsrc).
    destruct n as [content|]; [|cbn; discriminate].
    cbn [mret M_ret]. rewrite update_content_eq.
    generalize (apply_rules rules (read_newlines content)). intros updated.
    unfold write_text. cbn [fs console].
    destruct (write_err os _) as [[e|e partial]|]; [cbn; discriminate|..];
      destruct (is_dir _ _); cbn; done.
  - intros Hcan. destruct (can_migrate_runs _ _ _ _ _ _ Hcan) as [m' Hrun].
    specialize (Hrun (console w)).
    replace (World (fs w) (console w)) with w in Hrun by (by destruct w).
    by rewrite Hrun.
Qed.

(** X4: [migrate_file] removes nothing and changes nothing but its
    destination.  At every other path the old node is still there, or
    the path was free and is free still or holds a new directory. *)
Theorem migrate_file_keeps_the_rest (src_rel dest_rel : string) (w : world)
    (k : string) :
  k <> join DEST_BASE dest_rel ->
  let w' := (migrate_file join dirname os src_rel dest_rel w).2 in
  fs w' !! k = fs w !! k
  \/ (fs w !! k = None /\ fs w' !! k = Some Dir).
Proof.
  intros Hk. cbv zeta.
  pose proof (migrate_file_effect join dirname os src_rel dest_rel
                (fs w) (console w)) as Heff.
  cbv zeta in Heff.
  replace (World (fs w) (console w)) with w in Heff by (by destruct w).
  destruct (raises join dirname os (fs w) (src_rel, dest_rel)).
  - destruct Heff as (_ & _ & Hg).
    destruct (Hg k) as [Hsame|(Hnone & Hdir & _)]; [by left|by right].
  - destruct Heff as [-> _]. rewrite effect_lookup.
    unfold dest_of. cbn [snd].
    destruct (bool_decide (is_Some _)); [|by left].
    assert (Hdirs : foldl ensure_dir (fs w)
                      (made_of join dirname (src_rel, dest_rel)) !! k
                    = fs w !! k
                    \/ (fs w !! k = None /\
                        foldl ensure_dir (fs w)
                          (made_of join dirname (src_rel, dest_rel)) !! k
                        = Some Dir)).
    { rewrite ensure_dirs_lookup. destruct (fs w !! k); [by left|].
      destruct (bool_decide _); [by right|by left]. }
    destruct (written _ _ _ _); [|exact Hdirs].
    by rewrite bool_decide_eq_false_2.
Qed.

Lemma is_ok_line_ok (rest : string) : is_ok_line ("  [OK] " +:+ rest) = true.
Proof. unfold is_ok_line. cbn. by destruct rest. Qed.

(** X5: a call that returns prints exactly one line: the skip line when
    nothing is at the source path, the [OK] line when it returns [True],
    and otherwise one of the two error lines. *)
Theorem migrate_file_prints_one_line (src_rel dest_rel : string)
    (w w' : world) (ok : bool) :
  migrate_file join dirname os src_rel dest_rel w = (Returned ok, w') ->
  exists line,
    console w' = console w ++ [line]
    /\ is_ok_line line = ok
    /\ (line = "  [OK] " +:+ src_rel +:+ " -> " +:+ dest_rel
        \/ line = "  [SKIP] Source not found: " +:+ src_rel
        \/ (exists e,
              line = "  [ERROR] Failed to read " +:+ src_rel +:+ ": " +:+ e)
        \/ (exists e,
              line = "  [ERROR] Failed to write " +:+ dest_rel +:+ ": " +:+ e)).
Proof.
  intros Hrun.
  destruct (migrate_file_returned _ _ _ _ _ _ _ _ Hrun)
    as [(-> & _ & _ & Hc)|[(-> & _ & e & Hc)|[(-> & _ & e & Hc)|(-> & _ & Hc)]]];
    eexists; (split; [exact Hc|]);
    (split; [first [reflexivity|apply is_ok_line_ok]|]); eauto 6.
Qed.
End CallResults.


Section CallFailures.
Variable join : string -> string -> string.
Variable dirname : string -> string.
Variable os : faults.

Lemma read_text_raised (p : string) (w : world) (e : string) :
  (read_text os p w).1 = Raised e -> read_text os p w = (Raised e, w).
Proof.
  unfold read_text. destruct (read_err os p); [by intros [= ->]|].
  destruct (fs w !! p) as [[c|]|]; cbn; by intros [= ->].
Qed.

Lemma makedirs_keeps_files (d : string) (w w1 : world) :
  makedirs dirname os d w = (Returned (), w1) ->
  console w1 = console w
  /\ forall k content,
       fs w1 !! k = Some (File content) <-> fs w !! k = Some (File content).
Proof.
  intros Hmk. destruct (makedirs_grown dirname os d w) as [Hcon Hg].
  rewrite Hmk in Hcon, Hg. cbn [snd] in Hcon, Hg.
  split; [exact Hcon|]. intros k content.
  by apply (grown_files _ _ _ _ _ Hg).
Qed.

(** X6: when the source exists and the directories are made but reading
    raises [e], [migrate_file] returns [False] and prints the read error
    with [src_rel] and [e]; the destination is not written: the regular
    files are the ones there were. *)
Theorem migrate_file_read_failure (src_rel dest_rel : string)
    (w w1 : world) (e : string) :
  is_Some (fs w !! join SRC_BASE src_rel) ->
  makedirs dirname os (dirname (join DEST_BASE dest_rel)) w
    = (Returned (), w1) ->
  (read_text os (join SRC_BASE src_rel) w1).1 = Raised e ->
  migrate_file join dirname os src_rel dest_rel w =
    (Returned false,
     World (fs w1)
       (console w
        ++ ["  [ERROR] Failed to read " +:+ src_rel +:+ ": " +:+ e]))
  /\ forall k content,
       fs w1 !! k = Some (File content) <-> fs w !! k = Some (File content).
Proof.
  intros Hsrc Hmk Hread.
  destruct (makedirs_keeps_files _ _ _ Hmk) as [Hcon Hfiles].
  split; [|exact Hfiles].
  unfold migrate_file, mbind, M_bind, path_exists.
  rewrite bool_decide_eq_true_2 by exact Hsrc. cbn [negb].
  rewrite Hmk. unfold try_except, mbind, M_bind.
  rewrite (read_text_raised _ _ _ Hread).
  unfold print. cbn. by rewrite Hcon.
Qed.

(** X7: when the source is read but writing the destination raises [e],
    [migrate_file] returns [False] and prints the write error with
    [dest_rel] and [e]; the [OK] line is not printed. *)
Theorem migrate_file_write_failure (src_rel dest_rel : string)
    (w w1 w2 : world) (content updated_content : text) (e : string) :
  is_Some (fs w !! join SRC_BASE src_rel) ->
  makedirs dirname os (dirname (join DEST_BASE dest_rel)) w
    = (Returned (), w1) ->
  read_text os (join SRC_BASE src_rel) w1 = (Returned content, w1) ->
  update_content content = Some updated_content ->
  write_text os (join DEST_BASE dest_rel) updated_content w1
    = (Raised e, w2) ->
  migrate_file join dirname os src_rel dest_rel w =
    (Returned false,
     World (fs w2)
       (console w
        ++ ["  [ERROR] Failed to write " +:+ dest_rel +:+ ": " +:+ e])).
Proof.
  intros Hsrc Hmk Hread Hupd Hwrite.
  destruct (makedirs_keeps_files _ _ _ Hmk) as [Hcon _].
  unfold migrate_file, mbind, M_bind, path_exists.
  rewrite bool_decide_eq_true_2 by exact Hsrc. cbn [negb].
  rewrite Hmk. unfold try_except, mbind, M_bind.
  rewrite Hread. cbn [mret M_ret]. rewrite Hupd, Hwrite.
  unfold print. cbn [fs console mret M_ret].
  assert (console w2 = console w1) as ->; [|by rewrite Hcon].
  revert Hwrite. unfold write_text.
  destruct (write_err os _) as [[e'|e' partial]|];
    [|destruct (is_dir _ _)..]; by intros [= _ <-].
Qed.
End CallFailures.

Lemma migrate_file_read_failure_witness :
  migrate_file Platform.join Platform.dirname Sample.os_unreadable
    Sample.first_src Sample.first_dest Sample.w_first =
    (Returned false,
     World (fs (makedirs Platform.dirname Sample.os_unreadable
                  (Platform.dirname (Platform.dest_path Sample.first_dest))
                  Sample.w_first).2)
       ["  [ERROR] Failed to read Pages/MyDatasets.razor.cs: "
        +:+ Sample.permission_denied (Platform.src_path Sample.first_src)])
  /\ forall k content,
       fs (makedirs Platform.dirname Sample.os_unreadable
             (Platform.dirname (Platform.dest_path Sample.first_dest))
             Sample.w_first).2 !! k = Some (File content)
       <-> fs Sample.w_first !! k = Some (File content).
Proof.
  apply (migrate_file_read_failure Platform.join Platform.dirname
           Sample.os_unreadable Sample.first_src Sample.first_dest
           Sample.w_first _
           (Sample.permission_denied (Platform.src_path Sample.first_src))).
  - exists (File Sample.page). by_vm.
  - by_vm.
  - by_vm.
Defined.

Lemma migrate_file_write_failure_witness :
  migrate_file Platform.join Platform.dirname Sample.os_readonly
    Sample.first_src Sample.first_dest Sample.w_first =
    (Returned false,
     World (fs (makedirs Platform.dirname Sample.os_readonly
                  (Platform.dirname (Platform.dest_path Sample.first_dest))
                  Sample.w_first).2)
       ["  [ERROR] Failed to write Features/Datasets/Pages/DatasetLibrary.razor.cs: "
        +:+ Sample.permission_denied (Platform.dest_path Sample.first_dest)]).
Proof.
  apply (migrate_file_write_failure Platform.join Platform.dirname
           Sample.os_readonly Sample.first_src Sample.first_dest
           Sample.w_first
           (makedirs Platform.dirname Sample.os_readonly
              (Platform.dirname (Platform.dest_path Sample.first_dest))
              Sample.w_first).2
           _ Sample.page (apply_rules rules Sample.page)
           (Sample.permission_denied (Platform.dest_path Sample.first_dest))).
  - exists (File Sample.page). by_vm.
  - by_vm.
  - by_vm.
  - apply update_content_eq.
  - by_vm.
Defined.


Lemma migrate_file_keeps_the_rest_witness :
  let w' := (migrate_file Platform.join Platform.dirname no_faults
               Sample.first_src Sample.first_dest Sample.w_first).2 in
  fs w' !! Platform.src_path Sample.first_src
    = fs Sample.w_first !! Platform.src_path Sample.first_src
  \/ (fs Sample.w_first !! Platform.src_path Sample.first_src = None
      /\ fs w' !! Platform.src_path Sample.first_src = Some Dir).
Proof.
  apply (migrate_file_keeps_the_rest Platform.join Platform.dirname no_faults
           Sample.first_src Sample.first_dest Sample.w_first
           (Platform.src_path Sample.first_src)).
  intros Heq. apply (f_equal String.length) in Heq.
  vm_compute in Heq. discriminate.
Defined.

Lemma migrate_file_prints_one_line_witness :
  exists line,
    console (migrate_file Platform.join Platform.dirname no_faults
               Sample.first_src Sample.first_dest Sample.w_first).2
    = console Sample.w_first ++ [line]
    /\ is_ok_line line = true
    /\ (line = "  [OK] " +:+ Sample.first_src +:+ " -> " +:+ Sample.first_dest
        \/ line = "  [SKIP] Source not found: " +:+ Sample.first_src
        \/ (exists e,
              line = "  [ERROR] Failed to read " +:+ Sample.first_src
                     +:+ ": " +:+ e)
        \/ (exists e,
              line = "  [ERROR] Failed to write " +:+ Sample.first_dest
                     +:+ ": " +:+ e)).
Proof.
  apply (migrate_file_prints_one_line Platform.join Platform.dirname no_faults
           Sample.first_src Sample.first_dest Sample.w_first _ true).
  by_vm.
Defined.

(** ** More on the run *)

Section RunLines.
Variable join : string -> string -> string.
Variable dirname : string -> string.
Variable os : faults.

Lemma ok_lines_snoc (line : string) (lines : list string) :
  length (filter (fun l => is_ok_line l = true) (line :: lines))
  = (if is_ok_line line then 1 else 0)
    + length (filter (fun l => is_ok_line l = true) lines).
Proof.
  rewrite filter_cons. destruct (is_ok_line line) eqn:Hl.
  - rewrite decide_True by done. reflexivity.
  - rewrite decide_False by discriminate. reflexivity.
Qed.

Lemma migrate_file_one_line (src_rel dest_rel : string) (w w' : world)
    (ok : bool) :
  migrate_file join dirname os src_rel dest_rel w = (Returned ok, w') ->
  exists line, console w' = console w ++ [line] /\ is_ok_line line = ok.
Proof.
  intros Hrun.
  destruct (migrate_file_returned _ _ _ _ _ _ _ _ Hrun)
    as [(-> & _ & _ & Hc)|[(-> & _ & e & Hc)|[(-> & _ & e & Hc)|(-> & _ & Hc)]]];
    eexists; (split; [exact Hc|]); first [reflexivity|apply is_ok_line_ok].
Qed.

Lemma migrate_file_raised (src_rel dest_rel : string) (w w' : world)
    (e : string) :
  migrate_file join dirname os src_rel dest_rel w = (Raised e, w') ->
  console w' = console w.
Proof.
  intros Hrun.
  pose proof (migrate_file_effect join dirname os src_rel dest_rel
                (fs w) (console w)) as Heff.
  cbv zeta in Heff.
  replace (World (fs w) (console w)) with w in Heff by (by destruct w).
  rewrite Hrun in Heff. cbn [fst snd] in Heff.
  destruct (raises _ _ _ _ _); [by destruct Heff as (_ & ? & _)|].
  destruct Heff as [_ [ok Hok]]. discriminate.
Qed.

(** The loop, when it returns: one line per mapping, and the counters
    have counted the [OK] lines and the others. *)
Lemma main_loop_returned (mappings : list (string * string)) :
  forall (sc fc sc' fc' : nat) (w w' : world),
    main_loop join dirname os mappings sc fc w = (Returned (sc', fc'), w') ->
    exists lines,
      console w' = console w ++ lines
      /\ length lines = length mappings
      /\ sc' = sc + length (filter (fun l => is_ok_line l = true) lines)
      /\ sc' + fc' = sc + fc + length mappings.
Proof.
  induction mappings as [|[src_rel dest_rel] rest IH];
    intros sc fc sc' fc' w w'.
  - intros [= <- <- <-]. exists []. rewrite app_nil_r. cbn. repeat split; lia.
  - cbn [main_loop]. unfold mbind, M_bind.
    destruct (migrate_file join dirname os src_rel dest_rel w)
      as [[ok|e] w1] eqn:Hcall; [|discriminate].
    destruct (migrate_file_one_line _ _ _ _ _ Hcall) as (line & Hc & Hok).
    intros Hrest. destruct ok.
    + destruct (IH _ _ _ _ _ _ Hrest) as (lines & Hc' & Hlen & Hs & Hsum).
      exists (line :: lines). rewrite Hc', Hc, <- app_assoc.
      rewrite ok_lines_snoc, Hok. cbn [length app]. repeat split; lia.
    + destruct (IH _ _ _ _ _ _ Hrest) as (lines & Hc' & Hlen & Hs & Hsum).
      exists (line :: lines). rewrite Hc', Hc, <- app_assoc.
      rewrite ok_lines_snoc, Hok. cbn [length app]. repeat split; lia.
Qed.

Lemma migrate_file_progress_line (src_rel dest_rel : string) (w w' : world)
    (ok : bool) :
  migrate_file join dirname os src_rel dest_rel w = (Returned ok, w') ->
  exists line, console w' = console w ++ [line]
               /\ is_progress_line line = true.
Proof.
  intros Hrun.
  destruct (migrate_file_returned _ _ _ _ _ _ _ _ Hrun)
    as [(-> & _ & _ & Hc)|[(-> & _ & e & Hc)|[(-> & _ & e & Hc)|(-> & _ & Hc)]]];
    eexists; (split; [exact Hc|]); reflexivity.
Qed.

(** The loop, when an exception ends it: fewer lines than mappings. *)
Lemma main_loop_raised (mappings : list (string * string)) :
  forall (sc fc : nat) (w w' : world) (e : string),
    main_loop join dirname os mappings sc fc w = (Raised e, w') ->
    exists lines,
      console w' = console w ++ lines /\ length lines < length mappings
      /\ Forall (fun l => is_progress_line l = true) lines.
Proof.
  induction mappings as [|[src_rel dest_rel] rest IH];
    intros sc fc w w' e; [discriminate|].
  cbn [main_loop]. unfold mbind, M_bind.
  destruct (migrate_file join dirname os src_rel dest_rel w)
    as [[ok|e1] w1] eqn:Hcall.
  - destruct (migrate_file_progress_line _ _ _ _ _ Hcall) as (line & Hc & Hp).
    intros Hrest.
    assert (exists lines,
               console w' = console w1 ++ lines
               /\ length lines < length rest
               /\ Forall (fun l => is_progress_line l = true) lines)
      as (lines & Hc' & Hlen & Hall)
      by (destruct ok; eapply IH; exact Hrest).
    exists (line :: lines). rewrite Hc', Hc, <- app_assoc.
    cbn [length app]. split; [done|]. split; [lia|by constructor].
  - intros [= <- <-]. rewrite (migrate_file_raised _ _ _ _ _ Hcall).
    exists []. rewrite app_nil_r. cbn. split; [done|]. split; [lia|constructor].
Qed.

(** X8: whenever [main] returns, it has printed, after the banner, one
    line for each of the 59 mappings, a blank line and the summary; the
    number of successes in the summary is the number of [OK] lines, and
    successes and failures add up to 59. *)
Theorem main_summary_counts_the_lines (w w' : world) :
  main join dirname os w = (Returned (), w') ->
  exists lines succeeded failed,
    console w' =
      console w ++ banner 59 ++ lines ++ [""; summary succeeded failed]
    /\ length lines = 59
    /\ succeeded = length (filter (fun l => is_ok_line l = true) lines)
    /\ succeeded + failed = 59.
Proof.
  unfold main, main_on, mbind, M_bind, print. cbn [fs console].
  destruct (main_loop join dirname os FILE_MAPPINGS 0 0 _)
    as [[[sc fc]|e] w1] eqn:Hloop; [|discriminate].
  intros [= <-]. cbn [fs console fst snd].
  destruct (main_loop_returned _ _ _ _ _ _ _ Hloop)
    as (lines & Hc & Hlen & Hs & Hsum).
  exists lines, sc, fc. rewrite Hc. cbn [console].
  change (length FILE_MAPPINGS) with 59 in *.
  rewrite <- !app_assoc. cbn [app]. unfold banner. cbn [app].
  repeat split; [exact Hlen|exact Hs|lia].
Qed.

(** X9: when an exception ends [main], the run has stopped early: after
    the banner there are fewer than 59 lines, all of them lines of
    [migrate_file]; neither the blank line nor the summary is printed. *)
Theorem main_raised_stops_early (w w' : world) (e : string) :
  main join dirname os w = (Raised e, w') ->
  exists lines,
    console w' = console w ++ banner 59 ++ lines
    /\ length lines < 59
    /\ Forall (fun l => is_progress_line l = true) lines
    /\ forall succeeded failed,
         is_progress_line (summary succeeded failed) = false.
Proof.
  unfold main, main_on, mbind, M_bind, print. cbn [fs console].
  destruct (main_loop join dirname os FILE_MAPPINGS 0 0 _)
    as [[[sc fc]|e1] w1] eqn:Hloop; [discriminate|].
  intros [= <- <-].
  destruct (main_loop_raised _ _ _ _ _ _ Hloop) as (lines & Hc & Hlen & Hall).
  exists lines. rewrite Hc. cbn [console].
  change (length FILE_MAPPINGS) with 59 in *.
  rewrite <- !app_assoc. cbn [app]. unfold banner. cbn [app].
  repeat split; [exact Hlen|exact Hall].
Qed.
End RunLines.

Lemma main_summary_counts_the_lines_witness :
  exists lines succeeded failed,
    console (main Platform.join Platform.dirname no_faults Sample.w_first).2 =
      console Sample.w_first ++ banner 59 ++ lines
      ++ [""; summary succeeded failed]
    /\ length lines = 59
    /\ succeeded = length (filter (fun l => is_ok_line l = true) lines)
    /\ succeeded + failed = 59.
Proof.
  apply (main_summary_counts_the_lines Platform.join Platform.dirname
           no_faults Sample.w_first).
  by_vm.
Defined.

Lemma main_raised_stops_early_witness :
  exists lines,
    console (main Platform.join Platform.dirname no_faults Sample.w_blocked).2
    = console Sample.w_blocked ++ banner 59 ++ lines
    /\ length lines < 59
    /\ Forall (fun l => is_progress_line l = true) lines
    /\ forall succeeded failed,
         is_progress_line (summary succeeded failed) = false.
Proof.
  apply (main_raised_stops_early Platform.join Platform.dirname no_faults
           Sample.w_blocked _
           ("[Errno 17] File exists: "
            +:+ repr (Platform.dest_path "Features/Datasets/Pages"))).
  by_vm.
Defined.


(** ** Running the migration again *)

Section Again.
Variable join : string -> string -> string.
Variable dirname : string -> string.
Variable os : faults.

Lemma written_again (m : gmap string node) (a : string * string) :
  src_of join a ∉ (dest_of join a :: made_of join dirname a) ->
  dest_of join a ∉ made_of join dirname a ->
  is_Some (m !! src_of join a) ->
  written join os
    (foldl ensure_dir (effect join dirname os m a) (made_of join dirname a)) a
  = written join os (foldl ensure_dir m (made_of join dirname a)) a.
Proof.
  intros Hsrc Hdest Hex.
  set (m1 := foldl ensure_dir m (made_of join dirname a)).
  assert (Hs : foldl ensure_dir (effect join dirname os m a)
                 (made_of join dirname a) !! src_of join a
               = m1 !! src_of join a).
  { unfold m1. rewrite !ensure_dirs_lookup.
    by rewrite (effect_lookup_other join dirname os m a _ Hsrc). }
  assert (Hd : foldl ensure_dir (effect join dirname os m a)
                 (made_of join dirname a) !! dest_of join a
               = match written join os m1 a with
                 | Some n => Some n
                 | None => m1 !! dest_of join a
                 end).
  { rewrite ensure_dirs_lookup, effect_lookup.
    rewrite (bool_decide_eq_true_2 (is_Some (m !! src_of join a)) Hex).
    fold m1.
    rewrite (bool_decide_eq_false_2 _ Hdest).
    destruct (written join os m1 a).
    - by rewrite bool_decide_eq_true_2.
    - by destruct (m1 !! dest_of join a). }
  unfold written at 1. unfold is_dir. rewrite Hs, Hd.
  unfold written, is_dir.
  destruct (read_err os _); [done|].
  destruct (m1 !! src_of join a) as [[content|]|]; [|done..].
  destruct (write_err os _) as [[e|e partial]|]; [done|..];
    by destruct (m1 !! dest_of join a) as [[c|]|].
Qed.

(** A second call for the same mapping changes nothing. *)
Lemma effect_idem (m : gmap string node) (a : string * string) :
  src_of join a ∉ (dest_of join a :: made_of join dirname a) ->
  dest_of join a ∉ made_of join dirname a ->
  effect join dirname os (effect join dirname os m a) a
  = effect join dirname os m a.
Proof.
  intros Hsrc Hdest. apply map_eq. intros k.
  rewrite (effect_lookup join dirname os (effect join dirname os m a) a k).
  rewrite (effect_lookup_other join dirname os m a _ Hsrc).
  destruct (bool_decide (is_Some (m !! src_of join a))) eqn:Hex; [|done].
  apply bool_decide_eq_true in Hex.
  rewrite (written_again m a Hsrc Hdest Hex).
  rewrite ensure_dirs_lookup, !effect_lookup, ensure_dirs_lookup.
  rewrite (bool_decide_eq_true_2 (is_Some (m !! src_of join a)) Hex).
  destruct (written _ _ _ _), (m !! k);
    repeat case_bool_decide; simplify_eq; done.
Qed.

Lemma effect_effects_comm (l : list (string * string)) (a : string * string) :
  (forall b m, b ∈ l ->
     effect join dirname os (effect join dirname os m a) b
     = effect join dirname os (effect join dirname os m b) a) ->
  forall m,
    effect join dirname os (effects join dirname os l m) a
    = effects join dirname os l (effect join dirname os m a).
Proof.
  unfold effects. induction l as [|b l IH]; intros Hcomm m; [done|].
  cbn [foldl]. rewrite IH by (intros; apply Hcomm; by right).
  by rewrite Hcomm by (by left).
Qed.

Lemma raises_after_calls (l : list (string * string)) (b : string * string) :
  (forall a, a ∈ l ->
     (src_of join b ∉ (dest_of join a :: made_of join dirname a))
     /\ (dest_of join a ∉ made_of join dirname b)) ->
  forall m,
    clean join dirname os l m = true ->
    raises join dirname os (effects join dirname os l m) b
    = raises join dirname os m b.
Proof.
  unfold effects. induction l as [|a l IH]; intros Hl m Hclean; [done|].
  cbn [clean] in Hclean.
  apply andb_true_iff in Hclean as [Hno%negb_true_iff Hclean].
  cbn [foldl]. rewrite IH; [|intros; apply Hl; by right|exact Hclean].
  destruct (Hl a) as [Hs Hd]; [by left|].
  by apply raises_after_call.
Qed.

Lemma layout_inv (mappings : list (string * string)) (a b : string * string) :
  independent join dirname mappings = true ->
  sources_apart join dirname mappings = true ->
  a ∈ mappings -> b ∈ mappings ->
  (src_of join b ∉ (dest_of join a :: made_of join dirname a))
  /\ (dest_of join a ∉ made_of join dirname b).
Proof.
  intros Hind Hsrc Ha Hb.
  destruct (decide (a = b)) as [->|Hne].
  - destruct (independent_inv join dirname _ b b Hind Hb Hb) as [Hself _].
    split; [|exact Hself].
    unfold sources_apart in Hsrc. rewrite forallb_forall in Hsrc.
    specialize (Hsrc b (proj1 (list_elem_of_In _ _) Hb)).
    by apply negb_true_iff, bool_decide_eq_false in Hsrc.
  - destruct (independent_inv join dirname _ a b Hind Ha Hb) as [_ Hap].
    destruct (apart_inv join dirname a b (Hap Hne)) as (? & _ & ?). done.
Qed.

Lemma effects_idem (l : list (string * string)) :
  (forall a b m, a ∈ l -> b ∈ l ->
     effect join dirname os (effect join dirname os m a) b
     = effect join dirname os (effect join dirname os m b) a) ->
  (forall a m, a ∈ l ->
     effect join dirname os (effect join dirname os m a) a
     = effect join dirname os m a) ->
  forall m,
    effects join dirname os l (effects join dirname os l m)
    = effects join dirname os l m.
Proof.
  induction l as [|a l IH]; intros Hcomm Hidem m; [done|].
  unfold effects. cbn [foldl].
  change (foldl (effect join dirname os) (effect join dirname os m a) l)
    with (effects join dirname os l (effect join dirname os m a)).
  rewrite (effect_effects_comm l a)
    by (intros b m' Hb; apply Hcomm; [by left|by right]).
  rewrite Hidem by (by left).
  apply IH.
  - intros b c m' Hb Hc. apply Hcomm; by right.
  - intros b m' Hb. apply Hidem. by right.
Qed.

(** After a run that does not raise, a second run over the same
    independent mappings does not raise either and changes nothing. *)
Lemma effects_again (mappings : list (string * string)) :
  NoDup mappings ->
  independent join dirname mappings = true ->
  sources_apart join dirname mappings = true ->
  forall m,
    clean join dirname os mappings m = true ->
    clean join dirname os mappings (effects join dirname os mappings m) = true
    /\ effects join dirname os mappings (effects join dirname os mappings m)
       = effects join dirname os mappings m.
Proof.
  intros Hnd Hind Hsrc m Hclean.
  assert (Hap : forall a b, a ∈ mappings -> b ∈ mappings -> a <> b ->
                            apart join dirname a b = true).
  { intros a b Ha Hb. by apply (independent_inv join dirname mappings a b). }
  split.
  - rewrite (clean_forall join dirname os mappings Hnd Hap).
    pose proof Hclean as Hall.
    rewrite (clean_forall join dirname os mappings Hnd Hap) in Hall.
    rewrite <- Hall. apply forallb_agree. intros b Hb. f_equal.
    apply raises_after_calls; [|exact Hclean].
    intros a Ha. by apply (layout_inv mappings).
  - apply effects_idem.
    + intros a b m' Ha Hb.
      by apply (independent_comm join dirname os mappings).
    + intros a m' Ha.
      destruct (layout_inv mappings a a Hind Hsrc Ha Ha) as [Hs Hd].
      by apply effect_idem.
Qed.

(** When a run over independent mappings returns, a second run started
    in the file tree it left returns too and leaves that file tree. *)
Lemma main_on_again (mappings : list (string * string)) (w : world) :
  NoDup mappings ->
  independent join dirname mappings = true ->
  sources_apart join dirname mappings = true ->
  (main_on join dirname os mappings w).1 = Returned () ->
  (main_on join dirname os mappings
     (main_on join dirname os mappings w).2).1 = Returned ()
  /\ fs (main_on join dirname os mappings
           (main_on join dirname os mappings w).2).2
     = fs (main_on join dirname os mappings w).2.
Proof.
  intros Hnd Hind Hsrc Hret.
  pose proof (main_on_returns_clean _ _ _ _ _ Hret) as Hclean.
  destruct (main_on_clean _ _ _ _ _ Hclean) as [_ Hfs].
  unfold final_fs in Hfs.
  destruct (effects_again mappings Hnd Hind Hsrc (fs w) Hclean)
    as [Hclean2 Hsame].
  rewrite <- Hfs in Hclean2, Hsame.
  destruct (main_on_clean _ _ _ _ _ Hclean2) as [Hret2 Hfs2].
  unfold final_fs in Hfs2. split; [exact Hret2|].
  by rewrite Hfs2, Hsame.
Qed.
(** Whether a call raises, spelled out directory by directory. *)
Lemma raises_nowhere_iff (mappings : list (string * string))
    (m : gmap string node) :
  forallb (fun b => negb (raises join dirname os m b)) mappings = true
  <-> forall src_rel dest_rel,
        (src_rel, dest_rel) ∈ mappings ->
        is_Some (m !! join SRC_BASE src_rel) ->
        forall d,
          d ∈ dirname (join DEST_BASE dest_rel)
              :: parents dirname (dirname (join DEST_BASE dest_rel)) ->
          is_file m d = false /\ (m !! d = None -> mkdir_err os d = None).
Proof.
  rewrite forallb_forall. split.
  - intros Hall src_rel dest_rel Hin%list_elem_of_In Hsrc d Hd%list_elem_of_In.
    specialize (Hall _ Hin). apply negb_true_iff in Hall.
    unfold raises, made_of, src_of, dest_of in Hall. cbn [fst snd] in Hall.
    rewrite (bool_decide_eq_true_2 _ Hsrc) in Hall. cbn [andb] in Hall.
    assert (blocked os m d = false) as Hfree.
    { destruct (blocked os m d) eqn:Hb; [|done].
      rewrite <- Hall. symmetry. apply existsb_exists. eauto. }
    unfold blocked in Hfree. unfold is_file.
    destruct (m !! d) as [[content|]|]; [discriminate Hfree|done|].
    split; [done|]. intros _.
    apply bool_decide_eq_false in Hfree.
    destruct (mkdir_err os d); [|done]. exfalso. apply Hfree. eauto.
  - intros Hall [src_rel dest_rel] Hin%list_elem_of_In.
    apply negb_true_iff. unfold raises, made_of, src_of, dest_of.
    cbn [fst snd].
    destruct (bool_decide (is_Some (m !! join SRC_BASE src_rel)))
      eqn:Hsrc; [|done].
    apply bool_decide_eq_true in Hsrc. cbn [andb].
    destruct (existsb _ _) eqn:Hex; [|done].
    apply existsb_exists in Hex as (d & Hd%list_elem_of_In & Hb).
    destruct (Hall _ _ Hin Hsrc d Hd) as [Hfile Hmk].
    unfold blocked in Hb. unfold is_file in Hfile.
    destruct (m !! d) as [[content|]|];
      [discriminate Hfile|discriminate Hb|].
    rewrite Hmk in Hb by done.
    apply bool_decide_eq_true in Hb as [? ?]. discriminate.
Qed.

(** A run over independent mappings returns exactly when no call would
    raise in the file tree the run starts in. *)
Lemma main_on_returns_iff (mappings : list (string * string)) (w : world) :
  NoDup mappings ->
  independent join dirname mappings = true ->
  (main_on join dirname os mappings w).1 = Returned ()
  <-> forall src_rel dest_rel,
        (src_rel, dest_rel) ∈ mappings ->
        is_Some (fs w !! join SRC_BASE src_rel) ->
        forall d,
          d ∈ dirname (join DEST_BASE dest_rel)
              :: parents dirname (dirname (join DEST_BASE dest_rel)) ->
          is_file (fs w) d = false
          /\ (fs w !! d = None -> mkdir_err os d = None).
Proof.
  intros Hnd Hind.
  assert (Hap : forall a b, a ∈ mappings -> b ∈ mappings -> a <> b ->
                            apart join dirname a b = true).
  { intros a b Ha Hb. by apply (independent_inv join dirname mappings). }
  rewrite <- raises_nowhere_iff.
  rewrite <- (clean_forall join dirname os mappings Hnd Hap).
  split; [apply main_on_returns_clean|]. intros Hclean.
  by destruct (main_on_clean join dirname os mappings w Hclean).
Qed.
End Again.

Lemma file_mappings_sources_apart :
  sources_apart Platform.join Platform.dirname FILE_MAPPINGS = true.
Proof. by_vm. Qed.

Lemma exit_status_returned join dirname (os : faults) (w : world) :
  exit_status join dirname os w = 0
  <-> (main join dirname os w).1 = Returned ().
Proof.
  unfold exit_status. destruct (main join dirname os w) as [[[]|e] w'];
    cbn [fst]; split; done.
Qed.

(** X10: the exit status is 0 exactly when, in the file tree the script
    starts in, every mapping whose source exists can have its
    directories made: neither the destination directory nor a directory
    above it is a regular file, and the system lets [os.mkdir] make
    each of them that is missing.  Read and write failures never change
    the exit status. *)
Theorem exit_status_zero_iff (os : faults) (w : world) :
  exit_status Platform.join Platform.dirname os w = 0
  <-> forall src_rel dest_rel,
        (src_rel, dest_rel) ∈ FILE_MAPPINGS ->
        is_Some (fs w !! Platform.join SRC_BASE src_rel) ->
        forall d,
          d ∈ Platform.dirname (Platform.join DEST_BASE dest_rel)
              :: parents Platform.dirname
                   (Platform.dirname (Platform.join DEST_BASE dest_rel)) ->
          is_file (fs w) d = false
          /\ (fs w !! d = None -> mkdir_err os d = None).
Proof.
  destruct file_mappings_independent as (Hind & Hnd & _).
  rewrite exit_status_returned, main_unfold.
  exact (main_on_returns_iff Platform.join Platform.dirname os
           FILE_MAPPINGS w Hnd Hind).
Qed.

(** X11: running the script a second time changes nothing.  When [main]
    returns, a second run started in the file tree the first one left
    returns as well and leaves that same file tree, whatever the read
    and write failures of the system (the same ones in both runs). *)
Theorem main_again_changes_nothing (os : faults) (w : world) :
  (main Platform.join Platform.dirname os w).1 = Returned () ->
  (main Platform.join Platform.dirname os
     (main Platform.join Platform.dirname os w).2).1 = Returned ()
  /\ fs (main Platform.join Platform.dirname os
           (main Platform.join Platform.dirname os w).2).2
     = fs (main Platform.join Platform.dirname os w).2.
Proof.
  destruct file_mappings_independent as (Hind & Hnd & _).
  rewrite !main_unfold.
  exact (main_on_again Platform.join Platform.dirname os FILE_MAPPINGS w
           Hnd Hind file_mappings_sources_apart).
Qed.

Lemma main_again_changes_nothing_witness :
  (main Platform.join Platform.dirname no_faults
     (main Platform.join Platform.dirname no_faults Sample.w_first).2).1
  = Returned ()
  /\ fs (main Platform.join Platform.dirname no_faults
           (main Platform.join Platform.dirname no_faults Sample.w_first).2).2
     = fs (main Platform.join Platform.dirname no_faults Sample.w_first).2.
Proof.
  apply (main_again_changes_nothing no_faults Sample.w_first).
  by_vm.
Defined.


(** ** Texts the rules leave alone, and where they split *)

Lemma suffixes_head (l q : text) :
  In q (Re.suffixes l) -> exists x q', q = x :: q' /\ x ∈ l.
Proof.
  induction l as [|a l IH]; cbn [Re.suffixes]; [done|].
  intros [<-|Hin].
  - exists a, l. split; [done|by left].
  - destruct (IH Hin) as (x & q' & -> & Hx). exists x, q'. split; [done|by right].
Qed.

Lemma cannot_continue_char (p : text) (c : N) :
  c ∉ p -> Re.cannot_continue p [c] = true.
Proof.
  intros Hc. unfold Re.cannot_continue. apply forallb_forall. intros q Hq.
  destruct (suffixes_head _ _ Hq) as (x & q' & -> & Hx).
  assert (x ∈ p) as Hxp by (destruct p; [done|by right]).
  assert (x <> c) as Hne by (intros ->; done).
  unfold Re.compatible. cbn [Re.starts_with].
  rewrite (bool_decide_eq_false_2 (x = c)) by done.
  by rewrite (bool_decide_eq_false_2 (c = x)) by done.
Qed.

Lemma contains_matches_char (p : text) (c : N) :
  p <> [] -> c ∉ p -> Re.contains_matches p [c] = true.
Proof.
  destruct p as [|x p]; [done|]. intros _ [Hne _]%not_elem_of_cons.
  unfold Re.contains_matches. cbn [Re.suffixes forallb Re.starts_with].
  rewrite (bool_decide_eq_false_2 (x = c)) by done.
  by rewrite (bool_decide_eq_false_2 (c = x)) by done.
Qed.

Lemma occurs_char (p : text) (c : N) :
  p <> [] -> c ∉ p -> Re.occurs p [c] = false.
Proof.
  destruct p as [|x p]; [done|]. intros _ [Hne _]%not_elem_of_cons.
  cbn [Re.occurs Re.starts_with].
  by rewrite (bool_decide_eq_false_2 (x = c)) by done.
Qed.

(** A character that is in no pattern stays, and no match crosses it. *)
Lemma splits_around_char (rs : list (text * text)) (c : N) :
  Forall (fun rule : text * text => rule.1 <> [] /\ c ∉ rule.1) rs ->
  splits_around rs [c] = true /\ apply_rules rs [c] = [c].
Proof.
  induction 1 as [|[p r] rs [Hp Hc] _ [IHs IHa]]; [done|].
  cbn [fst] in Hp, Hc. cbn [splits_around]. rewrite apply_rules_cons.
  unfold apply_rule. cbn [fst snd].
  rewrite (sub_literal_absent p r [c] Hp (occurs_char p c Hp Hc)).
  split; [|exact IHa].
  rewrite (bool_decide_eq_false_2 _ Hp), cannot_continue_char by done.
  by rewrite contains_matches_char, IHs by done.
Qed.

Lemma names_only_sound (rs : list (text * text)) (c : N) :
  names_only rs = true -> is_name_char c = false ->
  Forall (fun rule : text * text => rule.1 <> [] /\ c ∉ rule.1) rs.
Proof.
  unfold names_only. rewrite forallb_forall, Forall_forall.
  intros Hall Hc rule Hin%list_elem_of_In.
  specialize (Hall _ Hin).
  apply andb_true_iff in Hall as [Hne%negb_true_iff%bool_decide_eq_false Hcs].
  split; [exact Hne|]. intros Hcp%list_elem_of_In.
  rewrite forallb_forall in Hcs. specialize (Hcs _ Hcp). congruence.
Qed.

Lemma rules_names_only : names_only rules = true.
Proof. by_vm. Qed.

Lemma rules_begin_with_old_root : covered_by [old_root] rules = true.
Proof. by_vm. Qed.

(** X12: a text in which the word [HartsysDatasetEditor] does not occur
    is returned unchanged by [update_content]. *)
Theorem update_content_without_old_root (content : text) :
  Re.occurs old_root content = false ->
  update_content content = Some content.
Proof.
  intros Hword. rewrite update_content_eq. f_equal.
  apply apply_rules_absent.
  apply (covered_by_absent [old_root]); [apply rules_begin_with_old_root|].
  by constructor.
Qed.

Lemma update_content_without_old_root_witness :
  update_content (cp "using System.Linq;") = Some (cp "using System.Linq;").
Proof.
  apply (update_content_without_old_root (cp "using System.Linq;")).
  by_vm.
Defined.

(** X13: [update_content] works piece by piece between characters that
    are neither ASCII letters nor full stops (a line feed, a blank, a
    semicolon, ...): such a character is kept, and the text before it and
    the text after it are rewritten on their own. *)
Theorem update_content_splits_at (c : N) (u v : text) :
  is_name_char c = false ->
  exists u' v',
    update_content u = Some u'
    /\ update_content v = Some v'
    /\ update_content (u ++ c :: v) = Some (u' ++ c :: v').
Proof.
  intros Hc. exists (apply_rules rules u), (apply_rules rules v).
  rewrite !update_content_eq. split; [done|]. split; [done|]. f_equal.
  destruct (splits_around_char rules c
              (names_only_sound rules c rules_names_only Hc)) as [Hsp Hkeep].
  change (u ++ c :: v) with (u ++ [c] ++ v).
  by rewrite (splits_around_sound rules [c] u v Hsp), Hkeep.
Qed.

Lemma update_content_splits_at_witness :
  exists u' v',
    update_content (cp "using HartsysDatasetEditor.Core.Models;") = Some u'
    /\ update_content (cp "using HartsysDatasetEditor.Client.Pages;") = Some v'
    /\ update_content
         (cp "using HartsysDatasetEditor.Core.Models;" ++ 10%N
          :: cp "using HartsysDatasetEditor.Client.Pages;")
       = Some (u' ++ 10%N :: v').
Proof.
  apply (update_content_splits_at 10%N
           (cp "using HartsysDatasetEditor.Core.Models;")
           (cp "using HartsysDatasetEditor.Client.Pages;")).
  reflexivity.
Defined.


(** ** What a run leaves alone *)

Section RunKeeps.
Variable join : string -> string -> string.
Variable dirname : string -> string.
Variable os : faults.

Lemma migrate_file_keeps_node (src_rel dest_rel : string) (w : world)
    (k : string) (n : node) :
  k <> join DEST_BASE dest_rel ->
  fs w !! k = Some n ->
  fs (migrate_file join dirname os src_rel dest_rel w).2 !! k = Some n.
Proof.
  intros Hk Hn.
  pose proof (migrate_file_effect join dirname os src_rel dest_rel
                (fs w) (console w)) as Heff.
  cbv zeta in Heff.
  replace (World (fs w) (console w)) with w in Heff by (by destruct w).
  destruct (raises join dirname os (fs w) (src_rel, dest_rel)).
  - destruct Heff as (_ & _ & Hg). by apply (grown_keeps _ _ _ _ _ Hg).
  - destruct Heff as [-> _]. rewrite effect_lookup.
    unfold dest_of. cbn [snd].
    destruct (bool_decide (is_Some _)); [|done].
    assert (foldl ensure_dir (fs w)
              (made_of join dirname (src_rel, dest_rel)) !! k = Some n)
      as Hdirs by (by rewrite ensure_dirs_lookup, Hn).
    destruct (written _ _ _ _); [|exact Hdirs].
    by rewrite bool_decide_eq_false_2.
Qed.

Lemma main_loop_keeps_node (k : string) (n : node)
    (mappings : list (string * string)) :
  k ∉ map (dest_of join) mappings ->
  forall (sc fc : nat) (w : world),
    fs w !! k = Some n ->
    fs (main_loop join dirname os mappings sc fc w).2 !! k = Some n.
Proof.
  induction mappings as [|[src_rel dest_rel] rest IH]; intros Hk sc fc w Hn;
    [exact Hn|].
  cbn [map] in Hk. apply not_elem_of_cons in Hk as [Hne Hrest].
  unfold dest_of in Hne. cbn [snd] in Hne.
  pose proof (migrate_file_keeps_node src_rel dest_rel w k n Hne Hn) as Hcall.
  cbn [main_loop]. unfold mbind, M_bind.
  destruct (migrate_file join dirname os src_rel dest_rel w) as [[ok|e] w1];
    cbn [snd] in Hcall |- *; [|exact Hcall].
  destruct ok; by apply IH.
Qed.

(** X14: the script copies and never moves: whatever stands at a path
    that is not one of the destinations of [FILE_MAPPINGS] (each source
    file, for one) is still there, unchanged, after [main], whether
    [main] returns or an exception ends it, and whatever failures the
    system reports. *)
Theorem main_keeps_what_is_not_a_destination (w : world) (k : string)
    (n : node) :
  k ∉ map (fun mapping : string * string => join DEST_BASE mapping.2)
        FILE_MAPPINGS ->
  fs w !! k = Some n ->
  fs (main join dirname os w).2 !! k = Some n.
Proof.
  intros Hk Hn. unfold main, main_on, mbind, M_bind, print.
  cbn [fs console].
  pose proof (main_loop_keeps_node k n FILE_MAPPINGS Hk 0 0
                (World (fs w)
                   (((((console w ++ ["Starting ClientApp migration..."])
                       ++ ["Source: " +:+ SRC_BASE])
                      ++ ["Destination: " +:+ DEST_BASE])
                     ++ ["Files to migrate: "
                         +:+ pretty (length FILE_MAPPINGS)])
                    ++ [""])) Hn) as Hloop.
  destruct (main_loop join dirname os FILE_MAPPINGS 0 0 _)
    as [[counts|e] w1]; exact Hloop.
Qed.
End RunKeeps.

Lemma main_keeps_what_is_not_a_destination_witness :
  fs (main Platform.join Platform.dirname no_faults Sample.w_first).2
    !! Platform.src_path Sample.first_src
  = Some (File Sample.page).
Proof.
  apply (main_keeps_what_is_not_a_destination Platform.join Platform.dirname
           no_faults Sample.w_first (Platform.src_path Sample.first_src)
           (File Sample.page)).
  - apply (bool_decide_unpack _). by_vm.
  - by_vm.
Defined.

